(** * myfamapp: the grouping / mapping / selection pipeline

    A shallow embedding of
      - [src/models/index.ts]        (module [Models]),
      - [src/services/grouping.ts]   (module [Grouping]),
      - [src/state/selection.tsx]    (module [Selection]),
    and the properties of the pipeline that are checked against them.

    Conventions of the embedding.
    - A TypeScript [string] is a [string]; an optional field [f?: T] is an
      [option T] ([None] is [undefined]); [T | null] is an [option T] as well.
    - JavaScript truthiness of a string ([!s], [s && ..], [s || ..]) is
      [Js.truthy]: the empty string is falsy, every other string is truthy.
    - Code that can throw returns a [Js.completion]; [try]/[catch] is a match
      on it.
    - A JavaScript [Map] whose iteration order is observed is an association
      list in insertion order; a [Map] that is only looked up is a [gmap]. *)

From Stdlib Require Import Ascii.
From stdpp Require Import base strings list gmap sorting pretty.

(* ================================================================= *)
(** ** JavaScript values *)

Module Js.

(** [!!s] for a string [s]. *)
Definition truthy (s : string) : bool := negb (String.eqb s "").

(** [!!s] for [s : string | undefined]. *)
Definition truthy_opt (s : option string) : bool :=
  match s with
  | Some s => truthy s
  | None => false
  end.

(** [s.startsWith(p)]. *)
Definition startsWith (s p : string) : bool := String.prefix p s.

(** The outcome of evaluating code that may throw; the payload of [Throw]
    is the text [String(error)] of the thrown value. *)
Inductive completion (A : Type) : Type :=
| Normal (a : A)
| Throw (e : string).
Arguments Normal {A} a.
Arguments Throw {A} e.

#[global] Instance completion_ret : MRet completion := @Normal.
#[global] Instance completion_bind : MBind completion := fun A B k c =>
  match c with
  | Normal a => k a
  | Throw e => Throw e
  end.

(** What [String(error)] is for the [TypeError] raised by reading a property
    of [undefined] (the wording is the engine's; V8's is used). *)
Definition TypeError_undefined (prop : string) : string :=
  "TypeError: Cannot read properties of undefined (reading '" +:+ prop +:+ "')".

(** Reading property [prop] of [o], which may be [undefined]. *)
Definition get {A} (o : option A) (prop : string) : completion A :=
  match o with
  | Some a => Normal a
  | None => Throw (TypeError_undefined prop)
  end.

(** [s.includes(sub)] *)
Fixpoint includes (s sub : string) : bool :=
  String.prefix sub s ||
  match s with
  | EmptyString => false
  | String _ s' => includes s' sub
  end.

(** A value thrown by asynchronous code, as far as a [catch] block tells
    thrown values apart: a [TypeError], another [Error], or a value that is
    not an [Error]. *)
Inductive thrown : Type :=
| ThrownTypeError (message : string)
| ThrownError (message : string)
| ThrownOther.

(** How a promise settles. *)
Inductive settled (A : Type) : Type :=
| Fulfilled (a : A)
| Rejected (e : thrown).
Arguments Fulfilled {A} a.
Arguments Rejected {A} e.

(** What [String(error)] is for the [TypeError] raised by reading a property
    of [null] (V8's wording). *)
Definition TypeError_null (prop : string) : string :=
  "Cannot read properties of null (reading '" +:+ prop +:+ "')".

End Js.

(* ================================================================= *)
(** ** src/models/index.ts *)

Module Person.
Record t : Type := mk {
  identifier : string;
  displayName : string;
  imageCount : nat
}.
End Person.

(** The [sharedBy] snapshot of a [SharedImage]. *)
Module Sharer.
Record t : Type := mk {
  displayName : string;
  identifier : string
}.
End Sharer.

Module Preview.
Record t : Type := mk {
  thumbnailUrl : option string
}.
End Preview.

Module SharedImage.
Record t : Type := mk {
  id : string;
  name : string;
  mimeType : string;
  sharedBy : Sharer.t;
  preview : Preview.t;
  dateShared : string;
  webUrl : option string
}.
End SharedImage.

Module PeopleGrouping.
Record t : Type := mk {
  person : Person.t;
  images : list SharedImage.t
}.
End PeopleGrouping.

Module GalleryItem.
Record t : Type := mk {
  image : SharedImage.t;
  altText : string;
  hasThumbnail : bool;
  placeholder : string
}.
End GalleryItem.

(** The value returned by [processGraphItems]. *)
Module ProcessResult.
Record t : Type := mk {
  groupings : list PeopleGrouping.t;
  allPeople : list Person.t;
  totalImages : nat;
  errors : list string
}.
End ProcessResult.

Module SelectionState.
Record t : Type := mk {
  selectedPerson : option Person.t;
  displayImages : list SharedImage.t;
  availablePeople : list Person.t;
  isLoading : bool;
  error : option string
}.
End SelectionState.

(** The raw Graph API item and its nested objects. *)
Module GraphFile.
Record t : Type := mk { mimeType : string }.
End GraphFile.

Module GraphUser.
Record t : Type := mk {
  displayName : string;
  id : string;
  email : option string
}.
End GraphUser.

Module GraphSharedBy.
Record t : Type := mk { user : option GraphUser.t }.
End GraphSharedBy.

Module GraphShared.
Record t : Type := mk { sharedDateTime : string }.
End GraphShared.

Module GraphUrl.
Record t : Type := mk { url : string }.
End GraphUrl.

Module GraphThumbnail.
Record t : Type := mk {
  small : option GraphUrl.t;
  medium : option GraphUrl.t;
  large : option GraphUrl.t
}.
End GraphThumbnail.

Module GraphDriveItem.
Record t : Type := mk {
  id : string;
  name : string;
  file : option GraphFile.t;
  sharedBy : option GraphSharedBy.t;
  shared : option GraphShared.t;
  thumbnails : option (list GraphThumbnail.t);
  webUrl : option string
}.
End GraphDriveItem.

Module Models.

(** [mimeType.startsWith('image/')] *)
Definition isImageMimeType (mimeType : string) : bool :=
  Js.startsWith mimeType "image/".

(** [item.sharedBy?.user] *)
Definition sharedBy_user (item : GraphDriveItem.t) : option GraphUser.t :=
  match GraphDriveItem.sharedBy item with
  | Some sb => GraphSharedBy.user sb
  | None => None
  end.

(** [!!(item.sharedBy?.user?.displayName &&
        (item.sharedBy.user.id || item.sharedBy.user.email))] *)
Definition hasValidSharer (item : GraphDriveItem.t) : bool :=
  match sharedBy_user item with
  | Some u =>
      Js.truthy (GraphUser.displayName u) &&
      (Js.truthy (GraphUser.id u) || Js.truthy_opt (GraphUser.email u))
  | None => false
  end.

(** [thumbnails[0].medium?.url] *)
Definition medium_url (th : GraphThumbnail.t) : option string :=
  match GraphThumbnail.medium th with
  | Some m => Some (GraphUrl.url m)
  | None => None
  end.

(** [!!(item.thumbnails && item.thumbnails.length > 0 &&
        item.thumbnails[0].medium?.url)] *)
Definition hasValidPreview (item : GraphDriveItem.t) : bool :=
  match GraphDriveItem.thumbnails item with
  | Some (th :: _) => Js.truthy_opt (medium_url th)
  | Some [] => false
  | None => false
  end.

End Models.

(* ================================================================= *)
(** ** An insertion-ordered [Map<string, V>] *)

Module JsMap.

Definition t (V : Type) : Type := list (string * V).

Definition empty {V} : t V := [].

Fixpoint get {V} (k : string) (m : t V) : option V :=
  match m with
  | [] => None
  | (k', v) :: m' => if String.eqb k k' then Some v else get k m'
  end.

Definition has {V} (k : string) (m : t V) : bool :=
  match get k m with
  | Some _ => true
  | None => false
  end.

(** [m.set(k, v)]: a present key keeps its position, a new key goes last. *)
Fixpoint set {V} (k : string) (v : V) (m : t V) : t V :=
  match m with
  | [] => [(k, v)]
  | (k', v') :: m' =>
      if String.eqb k k' then (k', v) :: m' else (k', v') :: set k v m'
  end.

End JsMap.

(* ================================================================= *)
(** ** src/services/grouping.ts *)

Module Grouping.

(** The callback of [filterImagesByMime]:
    [item.file?.mimeType && isImageMimeType(item.file.mimeType)]. *)
Definition isImageItem (item : GraphDriveItem.t) : bool :=
  match GraphDriveItem.file item with
  | Some f =>
      Js.truthy (GraphFile.mimeType f) &&
      Models.isImageMimeType (GraphFile.mimeType f)
  | None => false
  end.

Definition filterImagesByMime (items : list GraphDriveItem.t)
  : list GraphDriveItem.t :=
  List.filter isImageItem items.

(** [!item.file?.mimeType] *)
Definition file_mimeType_falsy (item : GraphDriveItem.t) : bool :=
  match GraphDriveItem.file item with
  | Some f => negb (Js.truthy (GraphFile.mimeType f))
  | None => true
  end.

(** [mapToSharedImage]; [now] is the value of [new Date().toISOString()] at
    the call. The result [Normal None] is the source's [null]. *)
Definition mapToSharedImage (now : string) (item : GraphDriveItem.t)
  : Js.completion (option SharedImage.t) :=
  if negb (Js.truthy (GraphDriveItem.name item))
     || file_mimeType_falsy item
     || negb (Models.hasValidSharer item)
  then mret None
  else
    sb ← Js.get (GraphDriveItem.sharedBy item) "user";
    sharer ← Js.get (GraphSharedBy.user sb) "email";
    let identifier :=
      match GraphUser.email sharer with
      | Some e => if Js.truthy e then e else GraphUser.id sharer
      | None => GraphUser.id sharer
      end in
    f ← Js.get (GraphDriveItem.file item) "mimeType";
    thumbnailUrl ←
      (if Models.hasValidPreview item then
         ths ← Js.get (GraphDriveItem.thumbnails item) "0";
         th ← Js.get (head ths) "medium";
         m ← Js.get (GraphThumbnail.medium th) "url";
         mret (Some (GraphUrl.url m))
       else mret None);
    let dateShared :=
      match GraphDriveItem.shared item with
      | Some sh =>
          if Js.truthy (GraphShared.sharedDateTime sh)
          then GraphShared.sharedDateTime sh else now
      | None => now
      end in
    mret (Some {|
      SharedImage.id := GraphDriveItem.id item;
      SharedImage.name := GraphDriveItem.name item;
      SharedImage.mimeType := GraphFile.mimeType f;
      SharedImage.sharedBy := {|
        Sharer.displayName := GraphUser.displayName sharer;
        Sharer.identifier := identifier |};
      SharedImage.preview := {| Preview.thumbnailUrl := thumbnailUrl |};
      SharedImage.dateShared := dateShared;
      SharedImage.webUrl := GraphDriveItem.webUrl item |}).

(** [Array.prototype.sort(compareFn)]. The sort is stable (ECMAScript 2019),
    so for a consistent comparator its result is the one of stable insertion:
    an element goes before the first later element it does not exceed. *)
Fixpoint sort_insert {A} (compareFn : A -> A -> Z) (x : A) (l : list A)
  : list A :=
  match l with
  | [] => [x]
  | y :: l' =>
      if (compareFn x y <=? 0)%Z then x :: y :: l'
      else y :: sort_insert compareFn x l'
  end.

Definition sort {A} (compareFn : A -> A -> Z) (l : list A) : list A :=
  foldr (sort_insert compareFn) [] l.

Section WithLocale.

(** [String.prototype.localeCompare] of the host. *)
Variable localeCompare : string -> string -> Z.

(** One iteration of the [for (const image of images)] loop. The array
    stored under the key is extended in place: the entry keeps its position
    in the map. *)
Definition groupImage (groups : JsMap.t (list SharedImage.t))
    (image : SharedImage.t) : Js.completion (JsMap.t (list SharedImage.t)) :=
  let identifier := Sharer.identifier (SharedImage.sharedBy image) in
  let groups :=
    if negb (JsMap.has identifier groups)
    then JsMap.set identifier [] groups else groups in
  arr ← Js.get (JsMap.get identifier groups) "push";
  mret (JsMap.set identifier (arr ++ [image]) groups).

Fixpoint groupImages (groups : JsMap.t (list SharedImage.t))
    (images : list SharedImage.t)
  : Js.completion (JsMap.t (list SharedImage.t)) :=
  match images with
  | [] => mret groups
  | image :: rest =>
      groups' ← groupImage groups image;
      groupImages groups' rest
  end.

(** The callback of [groups.forEach]. *)
Definition toGrouping (entry : string * list SharedImage.t)
  : Js.completion PeopleGrouping.t :=
  let '(identifier, groupImages) := entry in
  firstImage ← Js.get (head groupImages) "sharedBy";
  let person := {|
    Person.identifier := identifier;
    Person.displayName := Sharer.displayName (SharedImage.sharedBy firstImage);
    Person.imageCount := length groupImages |} in
  mret {| PeopleGrouping.person := person;
          PeopleGrouping.images := groupImages |}.

Fixpoint forEachGroup (groups : JsMap.t (list SharedImage.t))
    (groupings : list PeopleGrouping.t)
  : Js.completion (list PeopleGrouping.t) :=
  match groups with
  | [] => mret groupings
  | entry :: rest =>
      g ← toGrouping entry;
      forEachGroup rest (groupings ++ [g])
  end.

(** The comparator passed to [sort]. *)
Definition byDisplayName (a b : PeopleGrouping.t) : Z :=
  localeCompare (Person.displayName (PeopleGrouping.person a))
                (Person.displayName (PeopleGrouping.person b)).

Definition groupBySharer (images : list SharedImage.t)
  : Js.completion (list PeopleGrouping.t) :=
  groups ← groupImages JsMap.empty images;
  groupings ← forEachGroup groups [];
  mret (sort byDisplayName groupings).

End WithLocale.

(** The display name written for a duplicate:
    [`${person.displayName} (${person.identifier})`]. *)
Definition withIdentifier (person : Person.t) : string :=
  Person.displayName person +:+ " (" +:+ Person.identifier person +:+ ")".

(** The first loop of [disambiguateDisplayNames]:
    [nameCount.set(name, (nameCount.get(name) || 0) + 1)]. *)
Definition countName (nameCount : gmap string nat) (group : PeopleGrouping.t)
  : gmap string nat :=
  let name := Person.displayName (PeopleGrouping.person group) in
  <[name := default 0 (nameCount !! name) + 1]> nameCount.

Definition nameCounts (groupings : list PeopleGrouping.t) : gmap string nat :=
  fold_left countName groupings ∅.

(** [nameCount.get(person.displayName)! > 1]; [undefined > 1] is [false]. *)
Definition isDuplicate (nameCount : gmap string nat) (person : Person.t)
  : bool :=
  match nameCount !! Person.displayName person with
  | Some n => 1 <? n
  | None => false
  end.

Definition disambiguate (nameCount : gmap string nat)
    (group : PeopleGrouping.t) : PeopleGrouping.t :=
  let person := PeopleGrouping.person group in
  if isDuplicate nameCount person then
    {| PeopleGrouping.person := {|
         Person.identifier := Person.identifier person;
         Person.displayName := withIdentifier person;
         Person.imageCount := Person.imageCount person |};
       PeopleGrouping.images := PeopleGrouping.images group |}
  else group.

Definition disambiguateDisplayNames (groupings : list PeopleGrouping.t)
  : list PeopleGrouping.t :=
  List.map (disambiguate (nameCounts groupings)) groupings.

(** The [for (const item of imageItems)] loop of [processGraphItems].
    [errors] is declared outside the [try] block, so what was pushed to it
    survives a throw: the loop returns it next to its completion.
    [clock i] is the time read by the [i]-th call of [mapToSharedImage]. *)
Fixpoint mapItems (clock : nat -> string) (i : nat)
    (imageItems : list GraphDriveItem.t)
    (sharedImages : list SharedImage.t) (errors : list string)
  : list string * Js.completion (list SharedImage.t) :=
  match imageItems with
  | [] => (errors, mret sharedImages)
  | item :: rest =>
      match mapToSharedImage (clock i) item with
      | Js.Normal (Some mapped) =>
          mapItems clock (S i) rest (sharedImages ++ [mapped]) errors
      | Js.Normal None =>
          mapItems clock (S i) rest sharedImages
            (errors ++ ["Failed to process item: " +:+ GraphDriveItem.id item])
      | Js.Throw e => (errors, Js.Throw e)
      end
  end.

Definition processGraphItems (localeCompare : string -> string -> Z)
    (clock : nat -> string) (rawItems : list GraphDriveItem.t)
  : ProcessResult.t :=
  let imageItems := filterImagesByMime rawItems in
  let '(errors, mapped) := mapItems clock 0 imageItems [] [] in
  let body :=
    sharedImages ← mapped;
    rawGroupings ← groupBySharer localeCompare sharedImages;
    let groupings := disambiguateDisplayNames rawGroupings in
    let allPeople := List.map PeopleGrouping.person groupings in
    mret {| ProcessResult.groupings := groupings;
            ProcessResult.allPeople := allPeople;
            ProcessResult.totalImages := length sharedImages;
            ProcessResult.errors := errors |} in
  match body with
  | Js.Normal result => result
  | Js.Throw error =>
      {| ProcessResult.groupings := [];
         ProcessResult.allPeople := [];
         ProcessResult.totalImages := 0;
         ProcessResult.errors :=
           errors ++ ["Processing failed: " +:+ error] |}
  end.

(** [toGalleryItem]; [hasThumbnail] is [!!image.preview.thumbnailUrl]. *)
Definition toGalleryItem (image : SharedImage.t) : GalleryItem.t :=
  let hasThumbnail :=
    Js.truthy_opt (Preview.thumbnailUrl (SharedImage.preview image)) in
  {| GalleryItem.image := image;
     GalleryItem.altText :=
       SharedImage.name image +:+ " shared by " +:+
       Sharer.displayName (SharedImage.sharedBy image);
     GalleryItem.hasThumbnail := hasThumbnail;
     GalleryItem.placeholder :=
       if hasThumbnail then "" else "No preview available" |}.

End Grouping.

(* ================================================================= *)
(** ** src/state/selection.tsx *)

(** What [await fetchSharedItems()] gives back to [loadData]. *)
Module FetchResult.
Record t : Type := mk {
  items : list GraphDriveItem.t;
  error : option string
}.
End FetchResult.

Module Selection.

Inductive SelectionAction : Type :=
| SET_LOADING (payload : bool)
| SET_ERROR (payload : option string)
| SET_DATA (people : list Person.t) (images : list SharedImage.t)
| SELECT_PERSON (payload : option Person.t)
| REFRESH_DATA.

Definition initialState : SelectionState.t := {|
  SelectionState.selectedPerson := None;
  SelectionState.displayImages := [];
  SelectionState.availablePeople := [];
  SelectionState.isLoading := false;
  SelectionState.error := None |}.

Definition getAllImagesFromPeople (people : list Person.t)
  : list SharedImage.t := [].

(** [img => img.sharedBy.identifier === person.identifier] *)
Definition sharedByPerson (person : Person.t) (img : SharedImage.t) : bool :=
  String.eqb (Sharer.identifier (SharedImage.sharedBy img))
             (Person.identifier person).

Definition selectionReducer (state : SelectionState.t)
    (action : SelectionAction) : SelectionState.t :=
  match action with
  | SET_LOADING payload => {|
      SelectionState.selectedPerson := SelectionState.selectedPerson state;
      SelectionState.displayImages := SelectionState.displayImages state;
      SelectionState.availablePeople := SelectionState.availablePeople state;
      SelectionState.isLoading := payload;
      SelectionState.error := SelectionState.error state |}
  | SET_ERROR payload => {|
      SelectionState.selectedPerson := SelectionState.selectedPerson state;
      SelectionState.displayImages := SelectionState.displayImages state;
      SelectionState.availablePeople := SelectionState.availablePeople state;
      SelectionState.isLoading := false;
      SelectionState.error := payload |}
  | SET_DATA people images =>
      let currentSelection := SelectionState.selectedPerson state in
      let filteredImages :=
        match currentSelection with
        | Some person => List.filter (sharedByPerson person) images
        | None => images
        end in
      {| SelectionState.selectedPerson := SelectionState.selectedPerson state;
         SelectionState.displayImages := filteredImages;
         SelectionState.availablePeople := people;
         SelectionState.isLoading := false;
         SelectionState.error := None |}
  | SELECT_PERSON selectedPerson =>
      let allImages :=
        getAllImagesFromPeople (SelectionState.availablePeople state) in
      let displayImages :=
        match selectedPerson with
        | Some person => List.filter (sharedByPerson person) allImages
        | None => allImages
        end in
      {| SelectionState.selectedPerson := selectedPerson;
         SelectionState.displayImages := displayImages;
         SelectionState.availablePeople := SelectionState.availablePeople state;
         SelectionState.isLoading := SelectionState.isLoading state;
         SelectionState.error := SelectionState.error state |}
  | REFRESH_DATA => {|
      SelectionState.selectedPerson := SelectionState.selectedPerson state;
      SelectionState.displayImages := SelectionState.displayImages state;
      SelectionState.availablePeople := SelectionState.availablePeople state;
      SelectionState.isLoading := true;
      SelectionState.error := None |}
  end.

(** [useReducer]: the actions dispatched are applied in dispatch order. *)
Definition dispatchAll (state : SelectionState.t)
    (actions : list SelectionAction) : SelectionState.t :=
  fold_left selectionReducer actions state.

(** How the [await fetchSharedItems()] of one [loadData] call settles:
    the promise resolves with a result, or it rejects. A rejection with an
    [Error] carries its [message]; [RejectedOther] is any other thrown value. *)
Inductive FetchOutcome : Type :=
| Resolved (result : FetchResult.t)
| RejectedError (message : string)
| RejectedOther.

Section WithHost.

Variable localeCompare : string -> string -> Z.

(** [loadData] up to its [await]: what it dispatches when it is called. *)
Definition loadData_called : list SelectionAction := [SET_LOADING true].

(** [loadData] after its [await]: what it dispatches once the fetch has
    settled. [clock] is the time read by the mapping calls of this run. *)
Definition loadData_settled (clock : nat -> string) (outcome : FetchOutcome)
  : list SelectionAction :=
  match outcome with
  | Resolved result =>
      if Js.truthy_opt (FetchResult.error result)
      then [SET_ERROR (FetchResult.error result)]
      else
        let processed :=
          Grouping.processGraphItems localeCompare clock
            (FetchResult.items result) in
        let people := ProcessResult.allPeople processed in
        let allImages :=
          List.concat
            (List.map PeopleGrouping.images (ProcessResult.groupings processed)) in
        [SET_DATA people allImages]
  | RejectedError message => [SET_ERROR (Some message)]
  | RejectedOther => [SET_ERROR (Some "Failed to load data")]
  end.

(** [selectPerson(person)] *)
Definition selectPerson (person : option Person.t) : list SelectionAction :=
  [SELECT_PERSON person].

(** [refreshData] up to the [await] inside the [loadData] it calls. *)
Definition refreshData_called : list SelectionAction :=
  REFRESH_DATA :: loadData_called.

(** The engine is driven by events of a single-threaded event loop: the UI
    calls an operation, or the fetch of an earlier call settles. A call of
    [loadData]/[refreshData] is a request; requests are numbered in the order
    they are issued, and [FetchSettled] names the request whose fetch
    settled. The number is bookkeeping of the model only: the source keeps
    no request token, and [react] does not look at it. *)
Inductive Event : Type :=
| LoadDataCalled
| RefreshDataCalled
| SelectPersonCalled (person : option Person.t)
| FetchSettled (request : nat) (clock : nat -> string) (outcome : FetchOutcome).

Definition react (event : Event) : list SelectionAction :=
  match event with
  | LoadDataCalled => loadData_called
  | RefreshDataCalled => refreshData_called
  | SelectPersonCalled person => selectPerson person
  | FetchSettled _ clock outcome => loadData_settled clock outcome
  end.

Definition run (state : SelectionState.t) (events : list Event)
  : SelectionState.t :=
  fold_left (fun st ev => dispatchAll st (react ev)) events state.

End WithHost.

End Selection.

(* ================================================================= *)
(** ** src/services/data.ts *)

(** The body of a Graph API response: an object with an optional [value]. *)
Module GraphBody.
Record t : Type := mk { value : option (list GraphDriveItem.t) }.
End GraphBody.

(** What [fetchSharedItems] reads of a [Response]. [json] is how the promise
    of [response.json()] settles; a body that is JSON [null] is [None]. *)
Module Response.
Record t : Type := mk {
  status : N;
  ok : bool;
  statusText : string;
  json : Js.settled (option GraphBody.t)
}.
End Response.

Module Data.

(** The [size] parameter of [getThumbnailUrl]. *)
Inductive Size : Type := small | medium | large.

(** [thumbnail.small?.url] and the like. *)
Definition url (o : option GraphUrl.t) : option string :=
  match o with
  | Some u => Some (GraphUrl.url u)
  | None => None
  end.

(** [a || b] for [a], [b] of type [string | undefined | null]: the result
    is used only where [null] and [undefined] are not told apart. *)
Definition or_else (a b : option string) : option string :=
  if Js.truthy_opt a then a else b.

Definition getThumbnailUrl (item : GraphDriveItem.t) (size : Size)
  : option string :=
  match GraphDriveItem.thumbnails item with
  | None => None
  | Some [] => None
  | Some (thumbnail :: _) =>
      let smallUrl := url (GraphThumbnail.small thumbnail) in
      let mediumUrl := url (GraphThumbnail.medium thumbnail) in
      let largeUrl := url (GraphThumbnail.large thumbnail) in
      let fallback :=
        (* large || medium || small || null *)
        let r := or_else (or_else largeUrl mediumUrl) smallUrl in
        if Js.truthy_opt r then r else None in
      match size with
      | large => if Js.truthy_opt largeUrl then largeUrl else fallback
      | medium => if Js.truthy_opt mediumUrl then mediumUrl else fallback
      | small => if Js.truthy_opt smallUrl then smallUrl else fallback
      end
  end.

(** [getThumbnailUrl(item)]: the default size is ['medium']. *)
Definition getThumbnailUrl_default (item : GraphDriveItem.t) : option string :=
  getThumbnailUrl item medium.

(** One of the items of [getMockSharedItems]. *)
Definition mockItem (id name displayName userId email sharedDateTime : string)
    (thumbnails : list GraphThumbnail.t) (webUrl : string)
  : GraphDriveItem.t := {|
  GraphDriveItem.id := id;
  GraphDriveItem.name := name;
  GraphDriveItem.file := Some {| GraphFile.mimeType := "image/jpeg" |};
  GraphDriveItem.sharedBy := Some {| GraphSharedBy.user := Some {|
    GraphUser.displayName := displayName;
    GraphUser.id := userId;
    GraphUser.email := Some email |} |};
  GraphDriveItem.shared :=
    Some {| GraphShared.sharedDateTime := sharedDateTime |};
  GraphDriveItem.thumbnails := Some thumbnails;
  GraphDriveItem.webUrl := Some webUrl |}.

Definition mockThumbnail (url : string) : GraphThumbnail.t := {|
  GraphThumbnail.small := None;
  GraphThumbnail.medium := Some {| GraphUrl.url := url |};
  GraphThumbnail.large := None |}.

Definition mockItems : list GraphDriveItem.t := [
  mockItem "mock-item-1" "family-vacation-beach.jpg"
    "Alice Johnson" "alice-id-123" "alice.johnson@example.com"
    "2025-09-10T14:30:00Z"
    [mockThumbnail "https://picsum.photos/300/200?random=1"]
    "https://example-my.sharepoint.com/personal/alice/Documents/family-vacation-beach.jpg";
  mockItem "mock-item-2" "birthday-party-kids.jpg"
    "Bob Smith" "bob-id-456" "bob.smith@example.com"
    "2025-09-12T16:45:00Z"
    [mockThumbnail "https://picsum.photos/300/200?random=2"]
    "https://example-my.sharepoint.com/personal/bob/Documents/birthday-party-kids.jpg";
  mockItem "mock-item-3" "hiking-trail-mountains.jpg"
    "Alice Johnson" "alice-id-123" "alice.johnson@example.com"
    "2025-09-11T09:15:00Z"
    [mockThumbnail "https://picsum.photos/300/200?random=3"]
    "https://example-my.sharepoint.com/personal/alice/Documents/hiking-trail-mountains.jpg";
  mockItem "mock-item-4" "wedding-ceremony.jpg"
    "Carol Williams" "carol-id-789" "carol.williams@example.com"
    "2025-09-08T18:20:00Z"
    [mockThumbnail "https://picsum.photos/300/200?random=4"]
    "https://example-my.sharepoint.com/personal/carol/Documents/wedding-ceremony.jpg";
  mockItem "mock-item-5" "office-team-lunch.jpg"
    "Bob Smith" "bob-id-456" "bob.smith@example.com"
    "2025-09-14T12:30:00Z"
    [mockThumbnail "https://picsum.photos/300/200?random=5"]
    "https://example-my.sharepoint.com/personal/bob/Documents/office-team-lunch.jpg";
  mockItem "mock-item-6" "garden-flowers-spring.jpg"
    "Alice Johnson" "alice-id-123" "alice.johnson@example.com"
    "2025-09-13T08:45:00Z"
    []
    "https://example-my.sharepoint.com/personal/alice/Documents/garden-flowers-spring.jpg"
].

(** What [getMockSharedItems] resolves with. *)
Definition getMockSharedItems : FetchResult.t := {|
  FetchResult.items := mockItems;
  FetchResult.error := None |}.

(** The collaborators of [fetchSharedItems]. [isTokenValid], [getToken] and
    [refreshToken] of the auth service catch everything they raise, so they
    return a value; [makeGraphRequest n token] is how the [n]-th request of
    the call (counted from 0), made with [token], settles. *)
Module Env.
Record t : Type := mk {
  isTokenValid : bool;
  getToken : option string;
  refreshToken : option string;
  makeGraphRequest : nat -> string -> Js.settled Response.t
}.
End Env.

(** What a call of [fetchSharedItems] asks of its collaborators, in order. *)
Inductive Call : Type :=
| GetToken
| RefreshToken
| GraphRequest (token : string).

Definition failure (message : string) : FetchResult.t := {|
  FetchResult.items := [];
  FetchResult.error := Some message |}.

(** The [catch] block of [fetchSharedItems]. *)
Definition caught (error : Js.thrown) : FetchResult.t :=
  match error with
  | Js.ThrownTypeError message =>
      if Js.includes message "fetch"
      then failure
        "Network connection problem - please check your internet connection"
      else failure message
  | Js.ThrownError message => failure message
  | Js.ThrownOther => failure "Failed to load shared items"
  end.

(** [fetchSharedItems] from [if (!response.ok)] on. *)
Definition readResponse (response : Response.t) : FetchResult.t :=
  if negb (Response.ok response) then
    caught (Js.ThrownError
      ("Graph API error: " +:+ pretty (Response.status response) +:+ " " +:+
       Response.statusText response))
  else
    match Response.json response with
    | Js.Rejected e => caught e
    | Js.Fulfilled None =>
        caught (Js.ThrownTypeError (Js.TypeError_null "value"))
    | Js.Fulfilled (Some data) => {|
        FetchResult.items := default [] (GraphBody.value data);
        FetchResult.error := None |}
    end.

(** [fetchSharedItems]: the result its promise resolves with, and the calls
    it made. *)
Definition fetchSharedItems (env : Env.t) : FetchResult.t * list Call :=
  if negb (Env.isTokenValid env) then
    (failure "Authentication required - please sign in", [])
  else
    match Env.getToken env with
    | None => (failure "Unable to get authentication token", [GetToken])
    | Some token =>
        if negb (Js.truthy token) then
          (failure "Unable to get authentication token", [GetToken])
        else if String.eqb token "mock-access-token-12345" then
          (getMockSharedItems, [GetToken])
        else
          match Env.makeGraphRequest env 0 token with
          | Js.Rejected e => (caught e, [GetToken; GraphRequest token])
          | Js.Fulfilled response =>
              if N.eqb (Response.status response) 401 then
                match Env.refreshToken env with
                | Some newToken =>
                    if Js.truthy newToken then
                      match Env.makeGraphRequest env 1 newToken with
                      | Js.Rejected e =>
                          (caught e,
                           [GetToken; GraphRequest token; RefreshToken;
                            GraphRequest newToken])
                      | Js.Fulfilled response' =>
                          (readResponse response',
                           [GetToken; GraphRequest token; RefreshToken;
                            GraphRequest newToken])
                      end
                    else
                      (failure "Authentication expired - please sign in again",
                       [GetToken; GraphRequest token; RefreshToken])
                | None =>
                    (failure "Authentication expired - please sign in again",
                     [GetToken; GraphRequest token; RefreshToken])
                end
              else
                (readResponse response, [GetToken; GraphRequest token])
          end
    end.

(** [refreshSharedItems] *)
Definition refreshSharedItems (env : Env.t) : FetchResult.t * list Call :=
  fetchSharedItems env.

End Data.

(* ================================================================= *)
(** ** src/components/PeoplePanel.tsx, src/components/Gallery.tsx *)

Module PeoplePanel.

(** [handlePersonClick]: the argument it passes to [onSelectPerson]. *)
Definition handlePersonClick (selectedPerson : option Person.t)
    (person : Person.t) : option Person.t :=
  let clickedSelected :=
    match selectedPerson with
    | Some selected =>
        String.eqb (Person.identifier selected) (Person.identifier person)
    | None => false
    end in
  if clickedSelected then None else Some person.

(** [handleShowAllClick]: the argument it passes to [onSelectPerson]. *)
Definition handleShowAllClick : option Person.t := None.

(** [people.reduce((sum, person) => sum + person.imageCount, 0)] *)
Definition totalImages (people : list Person.t) : nat :=
  fold_left (fun sum person => sum + Person.imageCount person) people 0.

End PeoplePanel.

Module Gallery.

(** The effect of [Gallery] on a change of [images]:
    [images.map(toGalleryItem)]. *)
Definition galleryItems (images : list SharedImage.t) : list GalleryItem.t :=
  List.map Grouping.toGalleryItem images.

End Gallery.

(** The page wires the panel to the engine: [onSelectPerson={selectPerson}]
    with [selectedPerson] of the state, and the gallery to [displayImages]. *)
Module Page.

Definition personClicked (state : SelectionState.t) (person : Person.t)
  : Selection.Event :=
  Selection.SelectPersonCalled
    (PeoplePanel.handlePersonClick
       (SelectionState.selectedPerson state) person).

Definition showAllClicked : Selection.Event :=
  Selection.SelectPersonCalled PeoplePanel.handleShowAllClick.

End Page.

(* ================================================================= *)
(** ** Vocabulary of the properties *)

Module Spec.

Import Grouping.

(** The sharer data [mapToSharedImage] asks for: a user with a non-empty
    display name and a non-empty id or e-mail address. *)
Definition sharer_complete (item : GraphDriveItem.t) : Prop :=
  exists u, Models.sharedBy_user item = Some u /\
    GraphUser.displayName u <> "" /\
    (GraphUser.id u <> "" \/
     exists e, GraphUser.email u = Some e /\ e <> "").

(** The identifier chosen for a sharer: [sharer.email || sharer.id]. *)
Definition sharer_identifier (u : GraphUser.t) : string :=
  match GraphUser.email u with
  | Some e => if Js.truthy e then e else GraphUser.id u
  | None => GraphUser.id u
  end.

(** The sharer data the specification asks for: a user with a non-empty
    identifier or a display name. *)
Definition sharer_usable (item : GraphDriveItem.t) : Prop :=
  exists u, Models.sharedBy_user item = Some u /\
    (sharer_identifier u <> "" \/ GraphUser.displayName u <> "").

(** The guard at the top of [mapToSharedImage]. *)
Definition rejected (item : GraphDriveItem.t) : bool :=
  negb (Js.truthy (GraphDriveItem.name item))
  || file_mimeType_falsy item
  || negb (Models.hasValidSharer item).

(** The items that [mapToSharedImage] maps to an image. *)
Definition accepted (item : GraphDriveItem.t) : bool := negb (rejected item).

(** The entry pushed to [errors] for an item that was mapped to [null]. *)
Definition failureOf (item : GraphDriveItem.t) : string :=
  "Failed to process item: " +:+ GraphDriveItem.id item.

(** An item whose declared MIME type starts with [image/]. *)
Definition declaresImage (item : GraphDriveItem.t) : bool :=
  match GraphDriveItem.file item with
  | Some f => Js.startsWith (GraphFile.mimeType f) "image/"
  | None => false
  end.

(** An image that some item of [items] was mapped to. *)
Definition mappedFrom (items : list GraphDriveItem.t)
    (img : SharedImage.t) : Prop :=
  exists item now,
    In item items /\ mapToSharedImage now item = Js.Normal (Some img).

(** [img.sharedBy.identifier === k] *)
Definition sharedWith (k : string) (img : SharedImage.t) : bool :=
  String.eqb (Sharer.identifier (SharedImage.sharedBy img)) k.

(** The map entry that [groupBySharer] holds for the key [k] once it has
    seen [images]: the images of that key, in input order. *)
Definition groupOf (images : list SharedImage.t) (k : string)
  : string * list SharedImage.t :=
  (k, List.filter (sharedWith k) images).

(** How a grouping is related to the map entry it was made from. *)
Definition madeFrom (entry : string * list SharedImage.t)
    (g : PeopleGrouping.t) : Prop :=
  Person.identifier (PeopleGrouping.person g) = entry.1 /\
  PeopleGrouping.images g = entry.2 /\
  Person.imageCount (PeopleGrouping.person g) = length entry.2 /\
  exists first rest, entry.2 = first :: rest /\
    Person.displayName (PeopleGrouping.person g)
      = Sharer.displayName (SharedImage.sharedBy first).

(** [a] does not come after [b] under the comparator. *)
Definition notAfter {A} (compareFn : A -> A -> Z) (a b : A) : Prop :=
  (compareFn a b <= 0)%Z.

(** The keys of the map of [groupBySharer] after it has seen [seen]: the
    identifiers of the images seen, once each. *)
Definition keysOf (seen : list SharedImage.t) (keys : list string) : Prop :=
  NoDup keys /\
  forall k, In k keys <->
    exists img, In img seen /\ Sharer.identifier (SharedImage.sharedBy img) = k.

(** [g.person.identifier] and [g.person.displayName] *)
Definition identifierOf (g : PeopleGrouping.t) : string :=
  Person.identifier (PeopleGrouping.person g).

Definition nameOf (g : PeopleGrouping.t) : string :=
  Person.displayName (PeopleGrouping.person g).

(** How many groupings of the list carry the display name [name]. *)
Definition occurrences (name : string) (groupings : list PeopleGrouping.t)
  : nat :=
  length (List.filter (fun g => String.eqb (nameOf g) name) groupings).

(** The grouping [g] with the identifier embedded in its display name. *)
Definition renamed (g : PeopleGrouping.t) : PeopleGrouping.t := {|
  PeopleGrouping.person := {|
    Person.identifier := identifierOf g;
    Person.displayName := withIdentifier (PeopleGrouping.person g);
    Person.imageCount := Person.imageCount (PeopleGrouping.person g) |};
  PeopleGrouping.images := PeopleGrouping.images g |}.

(** What [disambiguateDisplayNames] does to one grouping of the list, by
    the number of groupings that carry its name. *)
Definition relabel (groupings : list PeopleGrouping.t)
    (g : PeopleGrouping.t) : PeopleGrouping.t :=
  if 1 <? occurrences (nameOf g) groupings then renamed g else g.

(** Every image of a grouping carries the identifier of the grouping. *)
Definition keyed (groupings : list PeopleGrouping.t) : Prop :=
  NoDup (List.map identifierOf groupings) /\
  forall (g : PeopleGrouping.t) img, In g groupings -> In img (PeopleGrouping.images g) ->
    Sharer.identifier (SharedImage.sharedBy img) = identifierOf g.

(** [s.includes(sub)] *)
Fixpoint includes (s sub : string) : bool :=
  String.prefix sub s ||
  match s with
  | EmptyString => false
  | String _ s' => includes s' sub
  end.

(** A display name in which no [" ("] occurs, so that it cannot be taken
    for a name with an appended identifier. *)
Definition plain (name : string) : Prop := includes name " (" = false.

(** A fetch that [loadData] treats as failed: the promise rejects, or it
    resolves with a truthy [error]. *)
Definition failed (outcome : Selection.FetchOutcome) : bool :=
  match outcome with
  | Selection.Resolved result => Js.truthy_opt (FetchResult.error result)
  | Selection.RejectedError _ => true
  | Selection.RejectedOther => true
  end.

(** The message that [loadData] dispatches with [SET_ERROR] for a fetch it
    treats as failed: [result.error], the [message] of the [Error] caught,
    or the default text for any other thrown value. *)
Definition messageOf (outcome : Selection.FetchOutcome) : option string :=
  match outcome with
  | Selection.Resolved result => FetchResult.error result
  | Selection.RejectedError message => Some message
  | Selection.RejectedOther => Some "Failed to load data"
  end.

(** The images that [loadData] flattens out of the groupings. *)
Definition flatten (groupings : list PeopleGrouping.t) : list SharedImage.t :=
  List.concat (List.map PeopleGrouping.images groupings).

(** The view of [images] under a selection: the images of the selected
    person, or all of them when nobody is selected. *)
Definition viewOf (selection : option Person.t) (images : list SharedImage.t)
  : list SharedImage.t :=
  match selection with
  | Some person =>
      List.filter (sharedWith (Person.identifier person)) images
  | None => images
  end.

(** [item.thumbnails[0].medium?.url], when there is a first thumbnail. *)
Definition firstMediumUrl (item : GraphDriveItem.t) : option string :=
  match GraphDriveItem.thumbnails item with
  | Some (th :: _) => Models.medium_url th
  | Some [] => None
  | None => None
  end.

(** The share timestamp of an item, when it has a non-empty one. *)
Definition timestamp (item : GraphDriveItem.t) : option string :=
  match GraphDriveItem.shared item with
  | Some sh =>
      if Js.truthy (GraphShared.sharedDateTime sh)
      then Some (GraphShared.sharedDateTime sh) else None
  | None => None
  end.

(** The image that [mapToSharedImage] builds from an item with the file [f]
    and the sharer [u], at the time [now]. *)
Definition imageOf (now : string) (item : GraphDriveItem.t)
    (f : GraphFile.t) (u : GraphUser.t) : SharedImage.t := {|
  SharedImage.id := GraphDriveItem.id item;
  SharedImage.name := GraphDriveItem.name item;
  SharedImage.mimeType := GraphFile.mimeType f;
  SharedImage.sharedBy := {|
    Sharer.displayName := GraphUser.displayName u;
    Sharer.identifier := sharer_identifier u |};
  SharedImage.preview := {|
    Preview.thumbnailUrl :=
      if Models.hasValidPreview item then firstMediumUrl item else None |};
  SharedImage.dateShared := default now (timestamp item);
  SharedImage.webUrl := GraphDriveItem.webUrl item |}.

(** The url of the requested size in a thumbnail set. *)
Definition sizeUrl (size : Data.Size) (th : GraphThumbnail.t)
  : option string :=
  match size with
  | Data.small => Data.url (GraphThumbnail.small th)
  | Data.medium => Data.url (GraphThumbnail.medium th)
  | Data.large => Data.url (GraphThumbnail.large th)
  end.

(** The selection after a sequence of events: the argument of the last
    [selectPerson] call, or the selection before when there was none. *)
Definition lastSelection (events : list Selection.Event)
    (before : option Person.t) : option Person.t :=
  fold_left
    (fun selection event =>
       match event with
       | Selection.SelectPersonCalled person => person
       | _ => selection
       end)
    events before.

(** Whether the last load-related event of a sequence is a call of
    [loadData] or [refreshData] (and not a settled fetch). *)
Definition lastIsCall (events : list Selection.Event) (before : bool) : bool :=
  fold_left
    (fun loading event =>
       match event with
       | Selection.LoadDataCalled => true
       | Selection.RefreshDataCalled => true
       | Selection.FetchSettled _ _ _ => false
       | Selection.SelectPersonCalled _ => loading
       end)
    events before.

(** What the gallery may show in a state: images with an [image/] MIME
    type that, when a person is selected, were shared by that person. *)
Definition showable (state : SelectionState.t) : Prop :=
  Forall
    (fun img =>
       Js.startsWith (SharedImage.mimeType img) "image/" = true /\
       forall person, SelectionState.selectedPerson state = Some person ->
         Sharer.identifier (SharedImage.sharedBy img)
           = Person.identifier person)
    (SelectionState.displayImages state).


(** The identifiers of the images in the order of their first occurrence. *)
Definition addKey (keys : list string) (k : string) : list string :=
  if bool_decide (k ∈ keys) then keys else keys ++ [k].

Definition firstSeen (images : list SharedImage.t) : list string :=
  fold_left addKey
    (List.map (fun img => Sharer.identifier (SharedImage.sharedBy img)) images)
    [].

(** [g.person.displayName === name] *)
Definition hasName (name : string) (g : PeopleGrouping.t) : bool :=
  String.eqb (nameOf g) name.

(** A thrown [Error] whose message is the empty string. *)
Definition emptyMessage (e : Js.thrown) : Prop :=
  e = Js.ThrownTypeError "" \/ e = Js.ThrownError "".

(** A request of the call, or the reading of its body, was rejected with
    [e]. *)
Definition rejectedWith (env : Data.Env.t) (e : Js.thrown) : Prop :=
  exists n token,
    Data.Env.makeGraphRequest env n token = Js.Rejected e \/
    exists response,
      Data.Env.makeGraphRequest env n token = Js.Fulfilled response /\
      Response.json response = Js.Rejected e.

(** The result was read from the body of a response that was [ok]. *)
Definition readFrom (env : Data.Env.t) (result : FetchResult.t) : Prop :=
  exists n token response data,
    Data.Env.makeGraphRequest env n token = Js.Fulfilled response /\
    Response.ok response = true /\
    Response.json response = Js.Fulfilled (Some data) /\
    FetchResult.items result = default [] (GraphBody.value data).

(** Every image that the gallery is given belongs to a person of the
    people panel. *)
Definition listed (state : SelectionState.t) : Prop :=
  Forall
    (fun img =>
       exists person,
         In person (SelectionState.availablePeople state) /\
         Person.identifier person
           = Sharer.identifier (SharedImage.sharedBy img))
    (SelectionState.displayImages state).

End Spec.

(* ================================================================= *)
(** ** Sample data *)

Module Samples.

(** Comparison of strings by character code, as a stand-in for a host
    [localeCompare]. *)
Definition codeCompare (a b : string) : Z :=
  match String.compare a b with
  | Lt => (-1)%Z
  | Eq => 0%Z
  | Gt => 1%Z
  end.

Definition clock (i : nat) : string := "2025-09-16T08:00:00.000Z".

Definition rawItem (id name mimeType displayName userId : string)
    (email : option string) : GraphDriveItem.t := {|
  GraphDriveItem.id := id;
  GraphDriveItem.name := name;
  GraphDriveItem.file := Some {| GraphFile.mimeType := mimeType |};
  GraphDriveItem.sharedBy := Some {| GraphSharedBy.user := Some {|
    GraphUser.displayName := displayName;
    GraphUser.id := userId;
    GraphUser.email := email |} |};
  GraphDriveItem.shared :=
    Some {| GraphShared.sharedDateTime := "2025-09-10T14:30:00Z" |};
  GraphDriveItem.thumbnails := Some [];
  GraphDriveItem.webUrl := None |}.

Definition beach : GraphDriveItem.t :=
  rawItem "mock-item-1" "family-vacation-beach.jpg" "image/jpeg"
    "Alice Johnson" "alice-id-123" (Some "alice.johnson@example.com").

Definition party : GraphDriveItem.t :=
  rawItem "mock-item-2" "birthday-party-kids.jpg" "image/jpeg"
    "Bob Smith" "bob-id-456" (Some "bob.smith@example.com").

Definition hiking : GraphDriveItem.t :=
  rawItem "mock-item-3" "hiking-trail-mountains.jpg" "image/jpeg"
    "Alice Johnson" "alice-id-123" (Some "alice.johnson@example.com").

(** An image whose sharer has a display name but neither id nor e-mail. *)
Definition anonymous : GraphDriveItem.t :=
  rawItem "1" "photo1.jpg" "image/jpeg" "Anonymous User" "" None.

(** A shared folder: an item without [file], hence without MIME type. *)
Definition folder : GraphDriveItem.t := {|
  GraphDriveItem.id := "9";
  GraphDriveItem.name := "Holidays";
  GraphDriveItem.file := None;
  GraphDriveItem.sharedBy := Some {| GraphSharedBy.user := Some {|
    GraphUser.displayName := "John";
    GraphUser.id := "j1";
    GraphUser.email := None |} |};
  GraphDriveItem.shared := None;
  GraphDriveItem.thumbnails := None;
  GraphDriveItem.webUrl := None |}.

(** An image without a name. *)
Definition unnamed : GraphDriveItem.t :=
  rawItem "4" "" "image/png" "John" "j1" None.

(** A shared document that is not an image. *)
Definition document : GraphDriveItem.t :=
  rawItem "2" "b.pdf" "application/pdf" "John" "j1" None.

Definition image (id name displayName identifier : string)
  : SharedImage.t := {|
  SharedImage.id := id;
  SharedImage.name := name;
  SharedImage.mimeType := "image/jpeg";
  SharedImage.sharedBy := {|
    Sharer.displayName := displayName;
    Sharer.identifier := identifier |};
  SharedImage.preview := {| Preview.thumbnailUrl := None |};
  SharedImage.dateShared := "2025-09-15T10:00:00Z";
  SharedImage.webUrl := None |}.

Definition photo1 : SharedImage.t :=
  image "1" "photo1.jpg" "John Doe" "john.doe@example.com".
Definition photo2 : SharedImage.t :=
  image "2" "photo2.jpg" "Jane Smith" "jane.smith@example.com".
Definition photo3 : SharedImage.t :=
  image "3" "photo3.jpg" "Johnny" "john.doe@example.com".

Definition grouping (displayName identifier : string)
    (images : list SharedImage.t) : PeopleGrouping.t := {|
  PeopleGrouping.person := {|
    Person.identifier := identifier;
    Person.displayName := displayName;
    Person.imageCount := length images |};
  PeopleGrouping.images := images |}.

(** Three sharers: two named "Sam", and one whose display name is what
    the first "Sam" is renamed to. *)
Definition sam1 : SharedImage.t := image "1" "a.jpg" "Sam" "s1".
Definition sam2 : SharedImage.t := image "2" "b.jpg" "Sam" "s2".
Definition sam3 : SharedImage.t := image "3" "c.jpg" "Sam (s1)" "s3".

Definition sams : list PeopleGrouping.t :=
  [grouping "Sam" "s1" [sam1]; grouping "Sam" "s2" [sam2];
   grouping "Sam (s1)" "s3" [sam3]].

(** The two sharers of property P6. *)
Definition smiths : list PeopleGrouping.t :=
  [grouping "John Smith" "a@x.com" []; grouping "John Smith" "b@y.com" []].

Definition alice : Person.t := {|
  Person.identifier := "alice.johnson@example.com";
  Person.displayName := "Alice Johnson";
  Person.imageCount := 2 |}.

Definition bob : Person.t := {|
  Person.identifier := "bob.smith@example.com";
  Person.displayName := "Bob Smith";
  Person.imageCount := 1 |}.

Definition fetched (items : list GraphDriveItem.t) : Selection.FetchOutcome :=
  Selection.Resolved {| FetchResult.items := items; FetchResult.error := None |}.

(** The state after the initial load of three mock items. *)
Definition loaded : SelectionState.t :=
  Selection.run codeCompare Selection.initialState
    [Selection.LoadDataCalled;
     Selection.FetchSettled 0 clock (fetched [beach; party; hiking])].

(** A response with a body. *)
Definition response (status : N) (ok : bool) (statusText : string)
    (items : list GraphDriveItem.t) : Response.t := {|
  Response.status := status;
  Response.ok := ok;
  Response.statusText := statusText;
  Response.json :=
    Js.Fulfilled (Some {| GraphBody.value := Some items |}) |}.


(** A session whose request fails in the network layer. *)
Definition offline : Data.Env.t := {|
  Data.Env.isTokenValid := true;
  Data.Env.getToken := Some "token";
  Data.Env.refreshToken := None;
  Data.Env.makeGraphRequest := fun n token =>
    Js.Rejected (Js.ThrownTypeError "Failed to fetch") |}.

(** A session whose request is rejected with an [Error] without message. *)
Definition silent : Data.Env.t := {|
  Data.Env.isTokenValid := true;
  Data.Env.getToken := Some "token";
  Data.Env.refreshToken := None;
  Data.Env.makeGraphRequest := fun n token =>
    Js.Rejected (Js.ThrownError "") |}.

End Samples.

(* ================================================================= *)
(** * Properties *)

(** ** Truthiness and string facts *)

Section JsFacts.

Lemma truthy_true (s : string) : Js.truthy s = true <-> s <> "".
Proof.
  unfold Js.truthy. rewrite negb_true_iff. split.
  - intros H ->. discriminate.
  - intros H. apply String.eqb_neq. exact H.
Qed.

Lemma truthy_opt_true (o : option string) :
  Js.truthy_opt o = true <-> exists s, o = Some s /\ s <> "".
Proof.
  destruct o as [s|]; simpl.
  - rewrite truthy_true. split; [eauto | intros (s' & [= <-] & H); exact H].
  - split; [discriminate | intros (s' & [=] & _)].
Qed.

(** A string that starts with a non-empty prefix is non-empty. *)
Lemma isImageMimeType_truthy (m : string) :
  Models.isImageMimeType m = true -> Js.truthy m = true.
Proof.
  intros H. apply truthy_true. intros ->. discriminate H.
Qed.

End JsFacts.

(** ** Mapping one item *)

Section Mapping.

Import Grouping Spec.

Lemma hasValidSharer_true (item : GraphDriveItem.t) :
  Models.hasValidSharer item = true <-> sharer_complete item.
Proof.
  unfold Models.hasValidSharer, sharer_complete.
  destruct (Models.sharedBy_user item) as [u|].
  - rewrite andb_true_iff, orb_true_iff, !truthy_true, truthy_opt_true.
    split.
    + intros [Hd Hi]. exists u. auto.
    + intros (u' & [= <-] & Hd & Hi). auto.
  - split; [discriminate | intros (u & [=] & _)].
Qed.

Lemma isImageItem_file (item : GraphDriveItem.t) :
  isImageItem item = true ->
  exists f, GraphDriveItem.file item = Some f /\
    Models.isImageMimeType (GraphFile.mimeType f) = true /\
    file_mimeType_falsy item = false.
Proof.
  unfold isImageItem, file_mimeType_falsy.
  destruct (GraphDriveItem.file item) as [f|]; [|discriminate].
  intros [Ht Hi]%andb_true_iff. exists f. rewrite Ht. auto.
Qed.

Lemma mapToSharedImage_rejected (now : string) (item : GraphDriveItem.t) :
  rejected item = true -> mapToSharedImage now item = Js.Normal None.
Proof.
  unfold rejected, mapToSharedImage. intros ->. reflexivity.
Qed.

(** Past the guard every property read is defined: the function returns an
    image, carrying the MIME type of the item and the sharer's identity. *)
Lemma mapToSharedImage_accepted (now : string) (item : GraphDriveItem.t) :
  rejected item = false ->
  exists img f u,
    mapToSharedImage now item = Js.Normal (Some img) /\
    GraphDriveItem.file item = Some f /\
    Models.sharedBy_user item = Some u /\
    SharedImage.id img = GraphDriveItem.id item /\
    SharedImage.name img = GraphDriveItem.name item /\
    SharedImage.mimeType img = GraphFile.mimeType f /\
    SharedImage.sharedBy img =
      {| Sharer.displayName := GraphUser.displayName u;
         Sharer.identifier := sharer_identifier u |}.
Proof.
  unfold rejected, mapToSharedImage. intros Hg. rewrite Hg.
  apply orb_false_iff in Hg as [[Hn Hf]%orb_false_iff Hs].
  apply negb_false_iff in Hs.
  unfold file_mimeType_falsy in Hf.
  destruct (GraphDriveItem.file item) as [f|] eqn:Ef; [|discriminate].
  unfold Models.hasValidSharer, Models.sharedBy_user in *.
  destruct (GraphDriveItem.sharedBy item) as [sb|] eqn:Esb; [|discriminate].
  simpl in *.
  destruct (GraphSharedBy.user sb) as [u|] eqn:Eu; [|discriminate].
  simpl. unfold Models.hasValidPreview, Models.medium_url.
  destruct (GraphDriveItem.thumbnails item) as [[|th ths]|]; simpl;
    [eexists _, f, u; repeat split; reflexivity | |
     eexists _, f, u; repeat split; reflexivity].
  destruct (GraphThumbnail.medium th) as [m|]; simpl;
    [|eexists _, f, u; repeat split; reflexivity].
  destruct (Js.truthy (GraphUrl.url m)); simpl;
    eexists _, f, u; repeat split; reflexivity.
Qed.

Lemma mapToSharedImage_cases (now : string) (item : GraphDriveItem.t) :
  (rejected item = true /\ mapToSharedImage now item = Js.Normal None) \/
  (rejected item = false /\
   exists img, mapToSharedImage now item = Js.Normal (Some img)).
Proof.
  destruct (rejected item) eqn:Hr.
  - left. split; [reflexivity | by apply mapToSharedImage_rejected].
  - right. split; [reflexivity|].
    destruct (mapToSharedImage_accepted now item Hr) as (img & _ & _ & H & _).
    eauto.
Qed.

Lemma rejected_false_iff (item : GraphDriveItem.t) :
  isImageItem item = true ->
  rejected item = false <->
  GraphDriveItem.name item <> "" /\ sharer_complete item.
Proof.
  intros (f & _ & _ & Hf)%isImageItem_file. unfold rejected.
  rewrite Hf, orb_false_r, orb_false_iff, !negb_false_iff.
  by rewrite truthy_true, hasValidSharer_true.
Qed.

End Mapping.

(** ** Mapping validity *)

Section MappingValidity.

Import Grouping Spec.

(** C3, as the code has it. For an item that passes the image filter,
    [mapToSharedImage] returns an image exactly when the item's name is
    non-empty and its sharer has a non-empty display name AND a non-empty id
    or e-mail address; in every other case it returns [null], and it never
    throws. The identifier of a mapped image is the e-mail address, or the id
    when there is no e-mail address, and is never empty: a display name is
    not used as a fallback identity. *)
Theorem mapToSharedImage_succeeds_iff
    (now : string) (item : GraphDriveItem.t) :
  isImageItem item = true ->
  ((exists img, mapToSharedImage now item = Js.Normal (Some img)) <->
     GraphDriveItem.name item <> "" /\ sharer_complete item) /\
  (mapToSharedImage now item = Js.Normal None <->
     ~ (GraphDriveItem.name item <> "" /\ sharer_complete item)) /\
  (forall img, mapToSharedImage now item = Js.Normal (Some img) ->
     Sharer.identifier (SharedImage.sharedBy img) <> "" /\
     exists u, Models.sharedBy_user item = Some u /\
       Sharer.identifier (SharedImage.sharedBy img) = sharer_identifier u).
Proof.
  intros Himg. pose proof (rejected_false_iff item Himg) as Hiff.
  destruct (mapToSharedImage_cases now item) as [[Hr Hm]|[Hr [img Hm]]].
  - assert (~ (GraphDriveItem.name item <> "" /\ sharer_complete item)) as Hn.
    { intros H. apply Hiff in H. congruence. }
    rewrite Hm. split; [|split].
    + split; [intros [img [=]] | intros H; by destruct Hn].
    + split; auto.
    + intros img [=].
  - rewrite Hm. split; [|split].
    + split; [intros _; by apply Hiff | eauto].
    + split; [intros [=] | intros Hn; destruct Hn; by apply Hiff].
    + intros img' [= <-].
      destruct (mapToSharedImage_accepted now item Hr)
        as (img' & f & u & Hm' & _ & Hu & _ & _ & _ & Hs).
      rewrite Hm in Hm'. injection Hm' as <-. rewrite Hs. simpl.
      split; [|eauto].
      apply Hiff in Hr as [_ (u' & Hu' & _ & Hid)].
      rewrite Hu in Hu'. injection Hu' as <-.
      unfold sharer_identifier.
      destruct Hid as [Hid | (e & -> & He)].
      * destruct (GraphUser.email u) as [e|]; [|done].
        destruct (Js.truthy e) eqn:He; [by apply truthy_true | done].
      * apply truthy_true in He as He'. by rewrite He'.
Qed.

Lemma mapToSharedImage_succeeds_iff_witness :
  isImageItem Samples.beach = true /\
  exists img,
    mapToSharedImage "2025-09-16T08:00:00.000Z" Samples.beach
      = Js.Normal (Some img) /\
    Sharer.identifier (SharedImage.sharedBy img) <> "".
Proof.
  assert (isImageItem Samples.beach = true) as Himg by reflexivity.
  split; [exact Himg|].
  destruct (mapToSharedImage_succeeds_iff
              "2025-09-16T08:00:00.000Z" Samples.beach Himg) as (_ & _ & H).
  eexists. split; [reflexivity|]. apply H. reflexivity.
Defined.

(** C3 as stated fails: an image item with a name whose sharer has a display
    name and an empty identifier satisfies the stated condition, and is
    mapped to [null]. *)
Lemma mapToSharedImage_display_name_only_is_null :
  isImageItem Samples.anonymous = true /\
  mapToSharedImage "2025-09-16T08:00:00.000Z" Samples.anonymous
    = Js.Normal None /\
  ~ ((exists img,
        mapToSharedImage "2025-09-16T08:00:00.000Z" Samples.anonymous
          = Js.Normal (Some img)) <->
     GraphDriveItem.name Samples.anonymous <> "" /\
     sharer_usable Samples.anonymous).
Proof.
  split; [reflexivity|]. split; [reflexivity|].
  intros [_ H]. destruct H as [img Himg]; [|discriminate Himg].
  split; [discriminate|].
  eexists. split; [reflexivity|]. right. discriminate.
Qed.

End MappingValidity.

(** ** Sorting *)

Section SortFacts.

Import Grouping Spec.

Context {A : Type} (compareFn : A -> A -> Z).

Lemma sort_insert_perm (x : A) (l : list A) :
  Permutation (sort_insert compareFn x l) (x :: l).
Proof.
  induction l as [|y l IH]; simpl; [reflexivity|].
  destruct (compareFn x y <=? 0)%Z; [reflexivity|].
  rewrite IH. apply perm_swap.
Qed.

Lemma sort_perm (l : list A) : Permutation (sort compareFn l) l.
Proof.
  induction l as [|x l IH]; simpl; [reflexivity|].
  unfold sort in *. simpl. rewrite sort_insert_perm. by constructor.
Qed.

(** The comparator is consistent: any two elements are comparable, and
    "not after" is transitive. *)
Hypothesis compare_total :
  forall a b, notAfter compareFn a b \/ notAfter compareFn b a.
Hypothesis compare_trans :
  forall a b c,
    notAfter compareFn a b -> notAfter compareFn b c -> notAfter compareFn a c.

Lemma sort_insert_sorted (x : A) (l : list A) :
  StronglySorted (notAfter compareFn) l ->
  StronglySorted (notAfter compareFn) (sort_insert compareFn x l).
Proof.
  induction 1 as [|y l Hs IH Hy]; simpl.
  - repeat constructor.
  - destruct (Z.leb_spec (compareFn x y) 0) as [Hle|Hgt].
    + constructor; [by constructor|].
      constructor; [exact Hle|].
      eapply Forall_impl; [exact Hy|]. intros z Hz.
      by apply (compare_trans x y z).
    + constructor; [exact IH|].
      rewrite (sort_insert_perm x l). constructor; [|exact Hy].
      destruct (compare_total x y) as [H|H]; [|exact H].
      unfold notAfter in H. lia.
Qed.

Lemma sort_sorted (l : list A) :
  StronglySorted (notAfter compareFn) (sort compareFn l).
Proof.
  induction l as [|x l IH]; [constructor|].
  unfold sort in *. simpl. by apply sort_insert_sorted.
Qed.

End SortFacts.

(** ** Grouping by sharer *)

Section GroupingFacts.

Import Grouping Spec.

Implicit Types (images seen : list SharedImage.t) (keys : list string).

Lemma sharedWith_true (k : string) (img : SharedImage.t) :
  sharedWith k img = true <->
  Sharer.identifier (SharedImage.sharedBy img) = k.
Proof. apply String.eqb_eq. Qed.

(** The map after one more image: [set] and [push] on a key that is present
    touch that entry alone; a new key adds an entry at the end. *)
Lemma get_groupOf_in seen keys (k : string) :
  In k keys ->
  JsMap.get k (List.map (groupOf seen) keys)
    = Some (List.filter (sharedWith k) seen).
Proof.
  induction keys as [|k' keys IH]; simpl; [done|].
  destruct (String.eqb_spec k k') as [->|Hne]; [done|].
  intros [->|Hin]; [done | auto].
Qed.

Lemma get_groupOf_notin seen keys (k : string) :
  ~ In k keys -> JsMap.get k (List.map (groupOf seen) keys) = None.
Proof.
  induction keys as [|k' keys IH]; simpl; [done|].
  intros Hn. destruct (String.eqb_spec k k') as [->|Hne]; [tauto|].
  apply IH. tauto.
Qed.

Lemma groupOf_snoc_other seen (image : SharedImage.t) (k : string) :
  Sharer.identifier (SharedImage.sharedBy image) <> k ->
  groupOf (seen ++ [image]) k = groupOf seen k.
Proof.
  intros Hne. unfold groupOf. rewrite List.filter_app. simpl.
  assert (sharedWith k image = false) as ->; [|by rewrite app_nil_r].
  apply not_true_iff_false. by rewrite sharedWith_true.
Qed.

Lemma groupOf_snoc_same seen (image : SharedImage.t) :
  let k := Sharer.identifier (SharedImage.sharedBy image) in
  groupOf (seen ++ [image]) k = (k, List.filter (sharedWith k) seen ++ [image]).
Proof.
  intros k. unfold groupOf. rewrite List.filter_app. simpl.
  assert (sharedWith k image = true) as ->; [|done].
  by apply sharedWith_true.
Qed.

Lemma map_groupOf_snoc_other seen keys (image : SharedImage.t) :
  ~ In (Sharer.identifier (SharedImage.sharedBy image)) keys ->
  List.map (groupOf (seen ++ [image])) keys = List.map (groupOf seen) keys.
Proof.
  intros Hn. apply map_ext_in. intros k Hk. apply groupOf_snoc_other.
  intros Heq. apply Hn. by rewrite Heq.
Qed.

Lemma set_groupOf_in seen keys (image : SharedImage.t) :
  let k := Sharer.identifier (SharedImage.sharedBy image) in
  NoDup keys -> In k keys ->
  JsMap.set k (List.filter (sharedWith k) seen ++ [image])
    (List.map (groupOf seen) keys)
  = List.map (groupOf (seen ++ [image])) keys.
Proof.
  intros k Hnd. induction Hnd as [|k' keys Hk' Hnd IH]; simpl; [done|].
  destruct (String.eqb_spec k k') as [Heq|Hne].
  - intros _. subst k'. rewrite map_groupOf_snoc_other.
    + f_equal. symmetry. apply groupOf_snoc_same.
    + intros Hin. apply Hk'. by apply list_elem_of_In.
  - intros [Heq|Hin]; [congruence|].
    rewrite groupOf_snoc_other by done. f_equal. by apply IH.
Qed.

Lemma set_groupOf_notin seen keys (k : string) (v : list SharedImage.t) :
  ~ In k keys ->
  JsMap.set k v (List.map (groupOf seen) keys)
    = List.map (groupOf seen) keys ++ [(k, v)].
Proof.
  induction keys as [|k' keys IH]; simpl; [done|].
  intros Hn. destruct (String.eqb_spec k k') as [->|Hne]; [tauto|].
  f_equal. apply IH. tauto.
Qed.

Lemma set_last {V} (m : JsMap.t V) (k : string) (v v' : V) :
  JsMap.get k m = None ->
  JsMap.set k v' (m ++ [(k, v)]) = m ++ [(k, v')].
Proof.
  induction m as [|[k' w] m IH]; simpl.
  - by rewrite String.eqb_refl.
  - destruct (String.eqb k k'); [done|]. intros H. f_equal. by apply IH.
Qed.

Lemma get_last {V} (m : JsMap.t V) (k : string) (v : V) :
  JsMap.get k m = None -> JsMap.get k (m ++ [(k, v)]) = Some v.
Proof.
  induction m as [|[k' w] m IH]; simpl.
  - by rewrite String.eqb_refl.
  - destruct (String.eqb k k'); [done | exact IH].
Qed.

Lemma filter_unseen seen keys (k : string) :
  keysOf seen keys -> ~ In k keys -> List.filter (sharedWith k) seen = [].
Proof.
  intros [_ Hk] Hn.
  destruct (List.filter (sharedWith k) seen) as [|img l] eqn:E; [done|].
  assert (In img (List.filter (sharedWith k) seen)) as Hin
    by (rewrite E; by left).
  apply filter_In in Hin as [Hin Hs%sharedWith_true].
  destruct Hn. apply Hk. eauto.
Qed.

Lemma groupImage_step seen keys (image : SharedImage.t) :
  keysOf seen keys ->
  exists keys',
    groupImage (List.map (groupOf seen) keys) image
      = Js.Normal (List.map (groupOf (seen ++ [image])) keys') /\
    keysOf (seen ++ [image]) keys'.
Proof.
  intros Hkeys. pose proof Hkeys as [Hnd Hk].
  set (k := Sharer.identifier (SharedImage.sharedBy image)).
  destruct (in_dec String.string_dec k keys) as [Hin|Hn].
  - exists keys. split.
    + unfold groupImage, JsMap.has. fold k.
      rewrite (get_groupOf_in seen keys k Hin). simpl.
      rewrite (get_groupOf_in seen keys k Hin). simpl.
      f_equal. by apply set_groupOf_in.
    + split; [done|]. intros k'. rewrite Hk. split.
      * intros (img & Hi & He). exists img. rewrite in_app_iff. auto.
      * intros (img & [Hi|[<-|[]]]%in_app_iff & He); [eauto|].
        apply Hk. by rewrite <- He.
  - exists (keys ++ [k]). split.
    + unfold groupImage, JsMap.has. fold k.
      pose proof (get_groupOf_notin seen keys k Hn) as Hget.
      rewrite Hget. simpl.
      rewrite (set_groupOf_notin seen keys k [] Hn).
      rewrite (get_last _ k [] Hget). simpl.
      rewrite (set_last _ k [] [image] Hget).
      rewrite List.map_app. simpl. f_equal. f_equal.
      * symmetry. by apply map_groupOf_snoc_other.
      * pose proof (groupOf_snoc_same seen image) as Hsame. simpl in Hsame.
        fold k in Hsame. rewrite Hsame.
        by rewrite (filter_unseen seen keys k Hkeys Hn).
    + split.
      * apply NoDup_app. split; [done|]. split; [|apply NoDup_singleton].
        intros x Hx [->|[]]%list_elem_of_In. apply Hn. by apply list_elem_of_In.
      * intros k'. rewrite !in_app_iff, Hk. simpl. split.
        -- intros [(img & Hi & He)|[<-|[]]].
           ++ exists img. rewrite in_app_iff. auto.
           ++ exists image. rewrite in_app_iff. simpl. auto.
        -- intros (img & [Hi|[<-|[]]]%in_app_iff & He); [eauto | auto].
Qed.

Lemma groupImages_from seen keys images :
  keysOf seen keys ->
  exists keys',
    groupImages (List.map (groupOf seen) keys) images
      = Js.Normal (List.map (groupOf (seen ++ images)) keys') /\
    keysOf (seen ++ images) keys'.
Proof.
  revert seen keys. induction images as [|image images IH]; intros seen keys Hk.
  - exists keys. by rewrite app_nil_r.
  - destruct (groupImage_step seen keys image Hk) as (keys1 & Hstep & Hk1).
    destruct (IH _ _ Hk1) as (keys2 & Hrest & Hk2).
    exists keys2. simpl. rewrite Hstep. simpl.
    rewrite <- app_assoc in Hrest, Hk2. done.
Qed.

(** The loop over the images never throws, and leaves one entry per
    identifier, holding the images of that identifier in input order. *)
Lemma groupImages_result images :
  exists keys,
    groupImages JsMap.empty images
      = Js.Normal (List.map (groupOf images) keys) /\
    keysOf images keys.
Proof.
  apply (groupImages_from [] [] images).
  split; [constructor|]. intros k. simpl. split; [done | by intros (? & [] & _)].
Qed.

Lemma forEachGroup_result (groups : JsMap.t (list SharedImage.t))
    (groupings : list PeopleGrouping.t) :
  (forall entry, In entry groups -> entry.2 <> []) ->
  exists made,
    forEachGroup groups groupings = Js.Normal (groupings ++ made) /\
    Forall2 madeFrom groups made.
Proof.
  revert groupings. induction groups as [|[k v] groups IH]; intros acc Hne.
  - exists []. simpl. by rewrite app_nil_r.
  - destruct v as [|first rest].
    { by destruct (Hne (k, []) (or_introl eq_refl)). }
    destruct (IH (acc ++ [{|
        PeopleGrouping.person := {|
          Person.identifier := k;
          Person.displayName :=
            Sharer.displayName (SharedImage.sharedBy first);
          Person.imageCount := length (first :: rest) |};
        PeopleGrouping.images := first :: rest |}])) as (made & Hrun & Hmade).
    { intros entry Hin. apply Hne. by right. }
    eexists (_ :: made). split.
    + simpl. simpl in Hrun. rewrite Hrun. by rewrite <- app_assoc.
    + constructor; [|exact Hmade].
      repeat split; simpl; eauto.
Qed.

Lemma groupOf_nonempty images keys :
  keysOf images keys ->
  forall entry, In entry (List.map (groupOf images) keys) -> entry.2 <> [].
Proof.
  intros [_ Hk] entry (k & <- & Hin)%in_map_iff. simpl.
  apply Hk in Hin as (img & Hin & Hid). intros Hnil.
  assert (In img (List.filter (sharedWith k) images)) as H.
  { apply filter_In. split; [done | by apply sharedWith_true]. }
  by rewrite Hnil in H.
Qed.

Lemma madeFrom_identifiers (groups : JsMap.t (list SharedImage.t))
    (made : list PeopleGrouping.t) :
  Forall2 madeFrom groups made ->
  List.map identifierOf made = List.map fst groups.
Proof.
  induction 1 as [|entry g groups made [Hid _] _ IH]; simpl; [done|].
  unfold identifierOf at 1. by rewrite Hid, IH.
Qed.

Lemma madeFrom_In (groups : JsMap.t (list SharedImage.t))
    (made : list PeopleGrouping.t) (g : PeopleGrouping.t) :
  Forall2 madeFrom groups made -> In g made ->
  exists entry, In entry groups /\ madeFrom entry g.
Proof.
  induction 1 as [|entry g' groups made Hm _ IH]; simpl; [done|].
  intros [<-|Hin]; [eauto|]. destruct (IH Hin) as (e & He & Hme). eauto.
Qed.

(** The groupings before they are sorted: [groupBySharer] never throws, and
    it makes one grouping per identifier, from the images of that
    identifier in input order. *)
Lemma groupBySharer_result (localeCompare : string -> string -> Z) images :
  exists keys made,
    groupBySharer localeCompare images
      = Js.Normal (sort (byDisplayName localeCompare) made) /\
    keysOf images keys /\
    Forall2 madeFrom (List.map (groupOf images) keys) made.
Proof.
  destruct (groupImages_result images) as (keys & Hgroups & Hkeys).
  destruct (forEachGroup_result (List.map (groupOf images) keys) []
              (groupOf_nonempty images keys Hkeys)) as (made & Hmade & Hrel).
  exists keys, made. split; [|done].
  unfold groupBySharer. rewrite Hgroups. simpl. by rewrite Hmade.
Qed.

End GroupingFacts.

Section Partition.

Import Grouping Spec.

Implicit Types (images : list SharedImage.t) (keys : list string).

Lemma filter_split {A} (f : A -> bool) (l : list A) :
  Permutation (List.filter f l ++ List.filter (fun x => negb (f x)) l) l.
Proof.
  induction l as [|x l IH]; simpl; [reflexivity|].
  destruct (f x); simpl.
  - by constructor.
  - rewrite <- Permutation_middle. by constructor.
Qed.

Lemma filter_filter_other images (k k' : string) :
  k' <> k ->
  List.filter (sharedWith k')
    (List.filter (fun img => negb (sharedWith k img)) images)
  = List.filter (sharedWith k') images.
Proof.
  intros Hne. induction images as [|img images IH]; simpl; [done|].
  destruct (sharedWith k img) eqn:Hk; simpl.
  - apply sharedWith_true in Hk.
    assert (sharedWith k' img = false) as ->; [|exact IH].
    apply not_true_iff_false. rewrite sharedWith_true. congruence.
  - by rewrite IH.
Qed.

(** The groups of distinct keys that cover the identifiers of the images
    are a partition of the images. *)
Lemma groups_partition keys images :
  NoDup keys ->
  (forall img, In img images ->
     In (Sharer.identifier (SharedImage.sharedBy img)) keys) ->
  Permutation
    (List.concat (List.map (fun k => List.filter (sharedWith k) images) keys))
    images.
Proof.
  intros Hnd. revert images.
  induction Hnd as [|k keys Hk Hnd IH]; intros images Hcover; simpl.
  - destruct images as [|img ?]; [done|]. destruct (Hcover img); by left.
  - etrans; [|apply (filter_split (sharedWith k) images)].
    apply Permutation_app_head.
    rewrite <- (IH (List.filter (fun img => negb (sharedWith k img)) images)).
    + apply Permutation_refl'. f_equal. apply map_ext_in. intros k' Hk'.
      symmetry. apply filter_filter_other. intros ->.
      apply Hk. by apply list_elem_of_In.
    + intros img [Hin Hne]%filter_In.
      destruct (Hcover img Hin) as [Heq|Hin']; [|done].
      apply negb_true_iff, not_true_iff_false in Hne.
      destruct Hne. by apply sharedWith_true.
Qed.

Lemma concat_images_perm (l l' : list PeopleGrouping.t) :
  Permutation l l' ->
  Permutation (List.concat (List.map PeopleGrouping.images l))
              (List.concat (List.map PeopleGrouping.images l')).
Proof.
  induction 1; simpl.
  - reflexivity.
  - by apply Permutation_app_head.
  - rewrite !app_assoc. apply Permutation_app_tail, Permutation_app_comm.
  - by etrans.
Qed.

Lemma madeFrom_images (groups : JsMap.t (list SharedImage.t))
    (made : list PeopleGrouping.t) :
  Forall2 madeFrom groups made ->
  List.map PeopleGrouping.images made = List.map snd groups.
Proof.
  induction 1 as [|entry g groups made (_ & Hi & _) _ IH]; simpl; [done|].
  by rewrite Hi, IH.
Qed.

(** What [groupBySharer] returns, whatever the comparator: it does not
    throw; there is one grouping per identifier; the grouping of an
    identifier holds the images of that identifier in input order, counts
    them, and is named after the first of them; the groupings together hold
    the images. *)
Lemma groupBySharer_groups (localeCompare : string -> string -> Z) images :
  exists made,
    groupBySharer localeCompare images
      = Js.Normal (sort (byDisplayName localeCompare) made) /\
    NoDup (List.map identifierOf made) /\
    (forall img, In img images ->
       exists g, In g made /\
         identifierOf g = Sharer.identifier (SharedImage.sharedBy img)) /\
    (forall g, In g made -> madeFrom (groupOf images (identifierOf g)) g) /\
    Permutation (List.concat (List.map PeopleGrouping.images made)) images.
Proof.
  destruct (groupBySharer_result localeCompare images)
    as (keys & made & Hrun & [Hnd Hkeys] & Hrel).
  pose proof (madeFrom_identifiers _ _ Hrel) as Hids.
  rewrite List.map_map in Hids. simpl in Hids. rewrite List.map_id in Hids.
  exists made. split; [exact Hrun|]. split; [by rewrite Hids|]. split; [|split].
  - intros img Hin.
    assert (In (Sharer.identifier (SharedImage.sharedBy img)) keys) as Hk
      by (apply Hkeys; eauto).
    rewrite <- Hids in Hk. apply in_map_iff in Hk as (g & Hg & Hin').
    eauto.
  - intros g Hg.
    destruct (madeFrom_In _ _ g Hrel Hg) as (entry & (k & <- & Hk)%in_map_iff & Hm).
    pose proof Hm as [Hid _]. simpl in Hid. unfold identifierOf.
    by rewrite Hid.
  - rewrite (madeFrom_images _ _ Hrel), List.map_map. simpl.
    apply groups_partition; [done|]. intros img Hin. apply Hkeys. eauto.
Qed.

End Partition.

Section GroupBySharer.

Import Grouping Spec.

Variable localeCompare : string -> string -> Z.

(** C4. For a comparator that is consistent (any two names are comparable
    and the order is transitive), [groupBySharer] returns (it does not
    throw) groupings such that: no identifier has two groupings and every
    image's identifier has one; each grouping holds exactly the images
    whose [sharedBy.identifier] is its identifier, in input order, whatever
    their display names; its [displayName] is the one of the first of
    these images and its [imageCount] their number; the groupings together
    hold the input images; and the groupings are in ascending order of
    [displayName] under the comparator. *)
Theorem groupBySharer_contract (images : list SharedImage.t) :
  (forall a b, (localeCompare a b <= 0)%Z \/ (localeCompare b a <= 0)%Z) ->
  (forall a b c, (localeCompare a b <= 0)%Z -> (localeCompare b c <= 0)%Z ->
     (localeCompare a c <= 0)%Z) ->
  exists groupings,
    groupBySharer localeCompare images = Js.Normal groupings /\
    NoDup (List.map identifierOf groupings) /\
    (forall img, In img images ->
       exists g, In g groupings /\
         identifierOf g = Sharer.identifier (SharedImage.sharedBy img)) /\
    (forall g, In g groupings ->
       PeopleGrouping.images g
         = List.filter (sharedWith (identifierOf g)) images /\
       Person.imageCount (PeopleGrouping.person g)
         = length (PeopleGrouping.images g) /\
       exists first rest,
         PeopleGrouping.images g = first :: rest /\
         nameOf g = Sharer.displayName (SharedImage.sharedBy first)) /\
    Permutation (List.concat (List.map PeopleGrouping.images groupings))
      images /\
    StronglySorted
      (fun a b => (localeCompare (nameOf a) (nameOf b) <= 0)%Z) groupings.
Proof.
  intros Htotal Htrans.
  destruct (groupBySharer_groups localeCompare images)
    as (made & Hrun & Hnd & Hcover & Hmade & Hperm).
  pose proof (sort_perm (byDisplayName localeCompare) made) as Hsort.
  exists (sort (byDisplayName localeCompare) made).
  split; [exact Hrun|]. split; [|split; [|split; [|split]]].
  - by rewrite Hsort.
  - intros img Hin. destruct (Hcover img Hin) as (g & Hg & Hid).
    exists g. split; [|done]. by rewrite Hsort.
  - intros g Hg. rewrite Hsort in Hg.
    destruct (Hmade g Hg) as (_ & Hi & Hc & first & rest & Hf & Hn).
    simpl in *. rewrite Hi. split; [done|]. split; [done|].
    exists first, rest. by rewrite <- Hf.
  - by rewrite (concat_images_perm _ _ Hsort).
  - apply (sort_sorted (byDisplayName localeCompare)).
    + intros a b. apply Htotal.
    + intros a b c. apply Htrans.
Qed.

End GroupBySharer.

Section GroupBySharerSample.

Import Grouping Spec.

Lemma codeCompare_notAfter (a b : string) :
  (Samples.codeCompare a b <= 0)%Z <-> String.le a b.
Proof.
  unfold Samples.codeCompare, String.le, String.leb.
  destruct (String.compare a b); simpl; split; (done || lia).
Qed.

Lemma codeCompare_total (a b : string) :
  (Samples.codeCompare a b <= 0)%Z \/ (Samples.codeCompare b a <= 0)%Z.
Proof. rewrite !codeCompare_notAfter. apply String.le_total. Qed.

Lemma codeCompare_trans (a b c : string) :
  (Samples.codeCompare a b <= 0)%Z -> (Samples.codeCompare b c <= 0)%Z ->
  (Samples.codeCompare a c <= 0)%Z.
Proof. rewrite !codeCompare_notAfter. apply transitivity. Qed.

Lemma groupBySharer_contract_witness :
  exists groupings,
    groupBySharer Samples.codeCompare
      [Samples.photo1; Samples.photo2; Samples.photo3]
      = Js.Normal groupings /\
    List.map nameOf groupings = ["Jane Smith"; "John Doe"] /\
    List.map PeopleGrouping.images groupings
      = [[Samples.photo2]; [Samples.photo1; Samples.photo3]] /\
    StronglySorted
      (fun a b => (Samples.codeCompare (nameOf a) (nameOf b) <= 0)%Z)
      groupings.
Proof.
  destruct (groupBySharer_contract Samples.codeCompare
              [Samples.photo1; Samples.photo2; Samples.photo3]
              codeCompare_total codeCompare_trans)
    as (groupings & Hrun & _ & _ & _ & _ & Hsorted).
  exists groupings. split; [exact Hrun|].
  vm_compute in Hrun. injection Hrun as <-.
  split; [reflexivity|]. split; [reflexivity | exact Hsorted].
Defined.

End GroupBySharerSample.

(** ** Disambiguation of display names *)

Section StringFacts.

Lemma append_cons (a : Ascii.ascii) (s t : string) :
  String a s +:+ t = String a (s +:+ t).
Proof. reflexivity. Qed.

Lemma append_length (s t : string) :
  String.length (s +:+ t) = String.length s + String.length t.
Proof.
  induction s as [|a s IH]; [done|]. rewrite append_cons. simpl. by rewrite IH.
Qed.

Lemma append_inv_tail (s1 s2 t : string) : s1 +:+ t = s2 +:+ t -> s1 = s2.
Proof.
  revert s2. induction s1 as [|a s1 IH]; intros [|b s2] H.
  - done.
  - apply (f_equal String.length) in H.
    rewrite !append_length in H. simpl in H. lia.
  - apply (f_equal String.length) in H.
    rewrite !append_length in H. simpl in H. lia.
  - rewrite !append_cons in H. injection H as -> H. f_equal. by apply IH.
Qed.

Lemma append_longer (s t : string) : t <> "" -> s +:+ t <> s.
Proof.
  intros Ht H. apply (f_equal String.length) in H.
  rewrite append_length in H. destruct t; [done|]. simpl in H. lia.
Qed.

End StringFacts.

Section DisambiguationFacts.

Import Grouping Spec.

Implicit Types (groupings : list PeopleGrouping.t) (g h : PeopleGrouping.t).

Lemma occurrences_cons (name : string) g groupings :
  occurrences name (g :: groupings)
  = (if String.eqb (nameOf g) name then 1 else 0) + occurrences name groupings.
Proof.
  unfold occurrences. simpl. by destruct (String.eqb (nameOf g) name).
Qed.

Lemma occurrences_app (name : string) groupings groupings' :
  occurrences name (groupings ++ groupings')
  = occurrences name groupings + occurrences name groupings'.
Proof.
  unfold occurrences. by rewrite List.filter_app, length_app.
Qed.

Lemma occurrences_zero (name : string) groupings :
  (forall h, In h groupings -> nameOf h <> name) ->
  occurrences name groupings = 0.
Proof.
  induction groupings as [|g groupings IH]; intros Hn; [done|].
  rewrite occurrences_cons, IH by (intros h Hh; apply Hn; by right).
  destruct (String.eqb_spec (nameOf g) name) as [Heq|]; [|done].
  destruct (Hn g); [by left | done].
Qed.

Lemma occurrences_In g groupings :
  In g groupings -> 1 <= occurrences (nameOf g) groupings.
Proof.
  induction groupings as [|g' groupings IH]; [done|].
  rewrite occurrences_cons. intros [->|Hin].
  - rewrite String.eqb_refl. lia.
  - specialize (IH Hin). lia.
Qed.

(** Two different groupings with one name make the name a duplicate. *)
Lemma occurrences_two g h groupings :
  In g groupings -> In h groupings -> g <> h -> nameOf h = nameOf g ->
  2 <= occurrences (nameOf g) groupings.
Proof.
  intros Hg Hh Hne Hname.
  induction groupings as [|g' groupings IH]; [done|].
  rewrite occurrences_cons.
  destruct Hg as [->|Hg], Hh as [->|Hh].
  - done.
  - rewrite String.eqb_refl.
    pose proof (occurrences_In h groupings Hh) as H. rewrite Hname in H. lia.
  - rewrite Hname, String.eqb_refl.
    pose proof (occurrences_In g groupings Hg) as H. lia.
  - specialize (IH Hg Hh).
    destruct (String.eqb (nameOf g') (nameOf g)); lia.
Qed.

(** The counts the first loop leaves in the map. *)
Lemma nameCounts_fold groupings (nameCount : gmap string nat) (name : string) :
  default 0 (fold_left countName groupings nameCount !! name)
  = default 0 (nameCount !! name) + occurrences name groupings.
Proof.
  revert nameCount.
  induction groupings as [|g groupings IH]; intros nameCount; simpl.
  - unfold occurrences. simpl. lia.
  - rewrite IH, occurrences_cons. unfold countName at 1.
    fold (nameOf g). rewrite lookup_insert.
    destruct (String.eqb_spec (nameOf g) name) as [->|Hne].
    + rewrite decide_True by done. simpl. lia.
    + rewrite decide_False by done. lia.
Qed.

Lemma isDuplicate_occurrences groupings g :
  isDuplicate (nameCounts groupings) (PeopleGrouping.person g)
  = (1 <? occurrences (nameOf g) groupings).
Proof.
  pose proof (nameCounts_fold groupings ∅ (nameOf g)) as H.
  rewrite lookup_empty in H. simpl in H. rewrite <- H.
  unfold isDuplicate, nameCounts. fold (nameOf g).
  by destruct (fold_left countName groupings ∅ !! nameOf g).
Qed.

(** [disambiguateDisplayNames] in terms of the number of occurrences of a
    name. *)
Lemma disambiguateDisplayNames_relabel groupings :
  disambiguateDisplayNames groupings = List.map (relabel groupings) groupings.
Proof.
  unfold disambiguateDisplayNames. apply map_ext. intros g.
  unfold disambiguate, relabel. by rewrite isDuplicate_occurrences.
Qed.

Lemma renamed_name g :
  nameOf (renamed g) = nameOf g +:+ " (" +:+ identifierOf g +:+ ")".
Proof. reflexivity. Qed.

Lemma renamed_changes g : renamed g <> g.
Proof.
  intros H. apply (f_equal nameOf) in H. rewrite renamed_name in H.
  by apply append_longer in H.
Qed.

(** Two groupings of one name and different identifiers are renamed to
    different names. *)
Lemma renamed_apart g h :
  nameOf g = nameOf h -> identifierOf g <> identifierOf h ->
  nameOf (renamed g) <> nameOf (renamed h).
Proof.
  intros Hname Hid H. rewrite !renamed_name, Hname in H.
  apply (inj (String.append _)) in H. apply (inj (String.append _)) in H.
  by apply append_inv_tail in H.
Qed.

End DisambiguationFacts.


(** ** Plain display names *)

Section PlainNames.

Import Grouping Spec.

Implicit Types (groupings : list PeopleGrouping.t) (g h : PeopleGrouping.t).

Lemma paren_append (rest : string) :
  " (" +:+ rest = String " "%char (String "("%char rest).
Proof. reflexivity. Qed.

Lemma includes_paren (rest : string) :
  includes (String " "%char (String "("%char rest)) " (" = true.
Proof. by destruct rest. Qed.

Lemma includes_append (name rest : string) :
  includes (name +:+ " (" +:+ rest) " (" = true.
Proof.
  induction name as [|a name IH]; [apply includes_paren|].
  rewrite append_cons. simpl. rewrite IH. apply orb_true_r.
Qed.

Lemma plain_tail (a : Ascii.ascii) (name : string) :
  plain (String a name) -> plain name.
Proof. unfold plain. simpl. by intros [_ H]%orb_false_iff. Qed.

(** A plain name is not the start of an appended identifier. *)
Lemma plain_not_paren (name rest rest' : string) :
  plain name -> name <> "" -> " (" +:+ rest <> name +:+ " (" +:+ rest'.
Proof.
  intros Hp Hne Heq. destruct name as [|a name]; [done|].
  rewrite paren_append, append_cons in Heq. injection Heq as <- Heq.
  destruct name as [|b name].
  - rewrite paren_append in Heq. discriminate Heq.
  - rewrite append_cons in Heq. injection Heq as <- _.
    unfold plain in Hp. by rewrite includes_paren in Hp.
Qed.

(** The place where the identifier starts is determined by the string when
    the name is plain. *)
Lemma plain_prefix_unique (name1 name2 rest1 rest2 : string) :
  plain name1 -> plain name2 ->
  name1 +:+ " (" +:+ rest1 = name2 +:+ " (" +:+ rest2 ->
  name1 = name2.
Proof.
  revert name2.
  induction name1 as [|a name1 IH]; intros [|b name2] Hp1 Hp2 Heq.
  - done.
  - by apply plain_not_paren in Heq.
  - symmetry in Heq. by apply plain_not_paren in Heq.
  - rewrite !append_cons in Heq. injection Heq as -> Heq.
    f_equal. apply (IH name2); [by eapply plain_tail | by eapply plain_tail | done].
Qed.

Lemma NoDup_map_by {A B C} (f : A -> B) (k : A -> C) (l : list A) :
  NoDup (List.map k l) ->
  (forall x y, In x l -> In y l -> f x = f y -> k x = k y) ->
  NoDup (List.map f l).
Proof.
  induction l as [|a l IH]; simpl; intros Hnd Hinj; [constructor|].
  apply NoDup_cons in Hnd as [Hnew Hnd]. apply NoDup_cons. split.
  - intros (y & Hfy & Hy)%list_elem_of_In%in_map_iff.
    apply Hnew. rewrite (Hinj a y); [|by left|by right|done].
    apply list_elem_of_In. by apply in_map.
  - apply IH; [done|]. intros x y Hx Hy. apply Hinj; by right.
Qed.

(** With distinct identifiers and plain display names, the disambiguated
    names are pairwise distinct. *)
Lemma disambiguateDisplayNames_plain groupings :
  NoDup (List.map identifierOf groupings) ->
  (forall g, In g groupings -> plain (nameOf g)) ->
  NoDup (List.map nameOf (disambiguateDisplayNames groupings)).
Proof.
  intros Hnd Hplain.
  rewrite disambiguateDisplayNames_relabel, List.map_map.
  apply (NoDup_map_by _ identifierOf); [done|].
  intros g h Hg Hh. unfold relabel.
  destruct (Nat.ltb_spec 1 (occurrences (nameOf g) groupings)) as [Hdg|Hug];
    destruct (Nat.ltb_spec 1 (occurrences (nameOf h) groupings)) as [Hdh|Huh].
  - rewrite !renamed_name. intros Heq.
    pose proof (plain_prefix_unique _ _ _ _ (Hplain g Hg) (Hplain h Hh) Heq)
      as Hname.
    rewrite Hname in Heq.
    apply (inj (String.append _)) in Heq.
    apply (inj (String.append _)) in Heq.
    by apply append_inv_tail in Heq.
  - rewrite renamed_name. intros Heq. exfalso.
    pose proof (Hplain h Hh) as Hp. unfold plain in Hp.
    by rewrite <- Heq, includes_append in Hp.
  - rewrite renamed_name. intros Heq. exfalso.
    pose proof (Hplain g Hg) as Hp. unfold plain in Hp.
    by rewrite Heq, includes_append in Hp.
  - intros Hname.
    destruct (decide (identifierOf g = identifierOf h)) as [|Hid]; [done|].
    assert (g <> h) as Hne by (intros ->; done).
    pose proof (occurrences_two g h groupings Hg Hh Hne (eq_sym Hname)). lia.
Qed.

End PlainNames.
Section Disambiguation.

Import Grouping Spec.

Implicit Types (groupings : list PeopleGrouping.t) (g h : PeopleGrouping.t).

Lemma occurrences_unique groupings (i : nat) g :
  groupings !! i = Some g ->
  (forall j h, groupings !! j = Some h -> nameOf h = nameOf g -> j = i) ->
  occurrences (nameOf g) groupings = 1.
Proof.
  intros Hi Huniq.
  destruct (list_elem_of_split_length groupings i g Hi) as (l1 & l2 & -> & ->).
  rewrite occurrences_app, occurrences_cons, String.eqb_refl.
  rewrite !occurrences_zero; [done| |].
  - intros h [j Hj]%list_elem_of_In%list_elem_of_lookup_1 Hname.
    assert ((l1 ++ g :: l2) !! (length l1 + S j) = Some h) as Hj'.
    { rewrite lookup_app_r by lia.
      replace (length l1 + S j - length l1) with (S j) by lia. done. }
    specialize (Huniq _ _ Hj' Hname). lia.
  - intros h [j Hj]%list_elem_of_In%list_elem_of_lookup_1 Hname.
    pose proof (lookup_lt_Some _ _ _ Hj) as Hlt.
    assert ((l1 ++ g :: l2) !! j = Some h) as Hj'
      by by apply lookup_app_l_Some.
    specialize (Huniq _ _ Hj' Hname). lia.
Qed.

Lemma disambiguateDisplayNames_lookup groupings (i : nat) :
  disambiguateDisplayNames groupings !! i
  = relabel groupings <$> groupings !! i.
Proof.
  rewrite disambiguateDisplayNames_relabel.
  change (List.map (relabel groupings) groupings)
    with (relabel groupings <$> groupings).
  apply list_lookup_fmap.
Qed.

(** C5, as the code has it. [disambiguateDisplayNames] changes nothing but
    display names, position by position. A grouping whose display name is
    also the display name of a grouping with another identifier gets the
    name [`${displayName} (${identifier})`], which embeds its identifier; a
    grouping whose display name no other grouping of the list has is
    returned as it is; two groupings that had the same display name and
    different identifiers have different display names in the result; and
    when the identifiers of the list are pairwise distinct and no display
    name contains [" ("], all display names of the result are pairwise
    distinct. (Nothing is said about names that are equal only after the
    renaming.) *)
Theorem disambiguateDisplayNames_contract groupings :
  length (disambiguateDisplayNames groupings) = length groupings /\
  (forall i g, groupings !! i = Some g ->
     exists g',
       disambiguateDisplayNames groupings !! i = Some g' /\
       identifierOf g' = identifierOf g /\
       PeopleGrouping.images g' = PeopleGrouping.images g /\
       Person.imageCount (PeopleGrouping.person g')
         = Person.imageCount (PeopleGrouping.person g) /\
       ((exists h, In h groupings /\ nameOf h = nameOf g /\
                   identifierOf h <> identifierOf g) ->
        nameOf g' = nameOf g +:+ " (" +:+ identifierOf g +:+ ")") /\
       ((forall j h, groupings !! j = Some h -> nameOf h = nameOf g -> j = i) ->
        g' = g)) /\
  (forall i j g h g' h',
     groupings !! i = Some g -> groupings !! j = Some h ->
     nameOf g = nameOf h -> identifierOf g <> identifierOf h ->
     disambiguateDisplayNames groupings !! i = Some g' ->
     disambiguateDisplayNames groupings !! j = Some h' ->
     nameOf g' <> nameOf h') /\
  (NoDup (List.map identifierOf groupings) ->
   (forall g, In g groupings -> includes (nameOf g) " (" = false) ->
   NoDup (List.map nameOf (disambiguateDisplayNames groupings))).
Proof.
  split; [|split; [|split]]; [| | |apply disambiguateDisplayNames_plain].
  - unfold disambiguateDisplayNames. apply length_map.
  - intros i g Hi. exists (relabel groupings g).
    rewrite disambiguateDisplayNames_lookup, Hi. split; [done|].
    assert (In g groupings) as Hg
      by (apply list_elem_of_In; by eapply list_elem_of_lookup_2).
    unfold relabel.
    destruct (Nat.ltb_spec 1 (occurrences (nameOf g) groupings)) as [Hdup|Huniq].
    + split; [done|]. split; [done|]. split; [done|]. split; [done|].
      intros Huniq. rewrite (occurrences_unique groupings i g) in Hdup by done.
      lia.
    + split; [done|]. split; [done|]. split; [done|]. split; [|done].
      intros (h & Hh & Hname & Hid).
      assert (g <> h) as Hne by (intros ->; done).
      pose proof (occurrences_two g h groupings Hg Hh Hne Hname). lia.
  - intros i j g h g' h' Hi Hj Hname Hid.
    rewrite !disambiguateDisplayNames_lookup, Hi, Hj. simpl.
    intros [= <-] [= <-].
    assert (In g groupings) as Hg
      by (apply list_elem_of_In; by eapply list_elem_of_lookup_2).
    assert (In h groupings) as Hh
      by (apply list_elem_of_In; by eapply list_elem_of_lookup_2).
    assert (g <> h) as Hne by (intros ->; done).
    pose proof (occurrences_two g h groupings Hg Hh Hne (eq_sym Hname)) as H1.
    pose proof (occurrences_two h g groupings Hh Hg (not_eq_sym Hne) Hname) as H2.
    unfold relabel.
    destruct (Nat.ltb_spec 1 (occurrences (nameOf g) groupings)); [|lia].
    destruct (Nat.ltb_spec 1 (occurrences (nameOf h) groupings)); [|lia].
    by apply renamed_apart.
Qed.

(** Property P6 of the specification, from the theorem: the two "John
    Smith" get different names, each with its identifier. *)
Lemma disambiguateDisplayNames_contract_witness :
  exists g h,
    disambiguateDisplayNames Samples.smiths = [g; h] /\
    nameOf g = "John Smith (a@x.com)" /\
    nameOf h = "John Smith (b@y.com)" /\
    nameOf g <> nameOf h.
Proof.
  destruct (disambiguateDisplayNames_contract Samples.smiths)
    as (_ & _ & Hapart & _).
  eexists _, _. split; [reflexivity|]. split; [reflexivity|].
  split; [reflexivity|].
  apply (Hapart 0 1 (Samples.grouping "John Smith" "a@x.com" [])
                    (Samples.grouping "John Smith" "b@y.com" []));
    (reflexivity || discriminate).
Defined.

(** C5 as stated fails: the identifiers of [Samples.sams] are distinct, and
    after the disambiguation two of its groupings carry the same name. *)
Lemma disambiguateDisplayNames_leaves_equal_names :
  groupBySharer Samples.codeCompare
    [Samples.sam1; Samples.sam2; Samples.sam3] = Js.Normal Samples.sams /\
  NoDup (List.map identifierOf Samples.sams) /\
  List.map nameOf (disambiguateDisplayNames Samples.sams)
    = ["Sam (s1)"; "Sam (s2)"; "Sam (s1)"] /\
  ~ NoDup (List.map nameOf (disambiguateDisplayNames Samples.sams)).
Proof.
  split; [reflexivity|]. split; [|split; [reflexivity|]].
  - apply (bool_decide_unpack _). by vm_compute.
  - intros H. change (NoDup ["Sam (s1)"; "Sam (s2)"; "Sam (s1)"]) in H.
    apply NoDup_cons in H as [H _]. apply H. set_solver.
Qed.

End Disambiguation.

(** ** Running the disambiguation twice *)

Section Idempotence.

Import Grouping Spec.

Implicit Types (groupings : list PeopleGrouping.t) (g h : PeopleGrouping.t).

Lemma map_fixed {A} (f : A -> A) (l : list A) :
  List.map f l = l <-> forall x, In x l -> f x = x.
Proof.
  induction l as [|a l IH]; simpl.
  - split; [intros _ x [] | done].
  - split.
    + intros [= Ha Hl] x [<-|Hx]; [done|]. by apply IH.
    + intros H. f_equal; [apply H; by left|]. apply IH. intros x Hx.
      apply H. by right.
Qed.

(** The names of a list are pairwise distinct exactly when no grouping of
    the list has a name that occurs twice. *)
Lemma NoDup_names_occurrences groupings :
  NoDup (List.map nameOf groupings) <->
  forall g, In g groupings -> occurrences (nameOf g) groupings <= 1.
Proof.
  induction groupings as [|g groupings IH]; simpl.
  - split; [intros _ g [] | intros _; constructor].
  - rewrite NoDup_cons, IH. split.
    + intros [Hnew Hrest] h Hh. rewrite occurrences_cons.
      destruct Hh as [<-|Hh].
      * rewrite String.eqb_refl, occurrences_zero; [done|].
        intros h Hh Hname. apply Hnew. rewrite <- Hname.
        apply list_elem_of_In. by apply in_map.
      * specialize (Hrest h Hh).
        destruct (String.eqb_spec (nameOf g) (nameOf h)) as [Heq|]; [|done].
        destruct Hnew. rewrite Heq. apply list_elem_of_In. by apply in_map.
    + intros Hall. split.
      * intros (h & Hname & Hh)%list_elem_of_In%in_map_iff.
        specialize (Hall g (or_introl eq_refl)).
        rewrite occurrences_cons, String.eqb_refl in Hall.
        pose proof (occurrences_In h groupings Hh) as H.
        rewrite Hname in H. lia.
      * intros h Hh. specialize (Hall h (or_intror Hh)).
        rewrite occurrences_cons in Hall. lia.
Qed.

Lemma disambiguateDisplayNames_fixed groupings :
  disambiguateDisplayNames (disambiguateDisplayNames groupings)
    = disambiguateDisplayNames groupings
  <-> NoDup (List.map nameOf (disambiguateDisplayNames groupings)).
Proof.
  set (once := disambiguateDisplayNames groupings).
  rewrite (disambiguateDisplayNames_relabel once), map_fixed.
  rewrite NoDup_names_occurrences.
  split; intros H g Hg; specialize (H g Hg); unfold relabel in *;
    destruct (Nat.ltb_spec 1 (occurrences (nameOf g) once)) as [Hdup|Huniq].
  - by apply renamed_changes in H.
  - done.
  - lia.
  - done.
Qed.

(** C6, as the code has it. A second run of [disambiguateDisplayNames]
    changes nothing exactly when the display names that the first run
    returned are pairwise distinct. (When two of them are equal, the second
    run appends the identifiers of these groupings once more.) This is the
    case whenever the identifiers of the list are pairwise distinct and no
    display name contains [" ("]. *)
Theorem disambiguateDisplayNames_twice groupings :
  (disambiguateDisplayNames (disambiguateDisplayNames groupings)
     = disambiguateDisplayNames groupings
   <-> NoDup (List.map nameOf (disambiguateDisplayNames groupings))) /\
  (NoDup (List.map identifierOf groupings) ->
   (forall g, In g groupings -> includes (nameOf g) " (" = false) ->
   disambiguateDisplayNames (disambiguateDisplayNames groupings)
     = disambiguateDisplayNames groupings).
Proof.
  split; [apply disambiguateDisplayNames_fixed|].
  intros Hnd Hplain. apply disambiguateDisplayNames_fixed.
  by apply disambiguateDisplayNames_plain.
Qed.

(** Scenario B of the specification, from the theorem: a second run leaves
    the disambiguated "John Smith" groupings as they are. *)
Lemma disambiguateDisplayNames_twice_witness :
  disambiguateDisplayNames (disambiguateDisplayNames Samples.smiths)
    = disambiguateDisplayNames Samples.smiths.
Proof.
  apply (disambiguateDisplayNames_twice Samples.smiths).
  - apply (bool_decide_unpack _). by vm_compute.
  - intros g [<-|[<-|[]]]; reflexivity.
Defined.

(** C6 as stated fails: on [Samples.sams], whose identifiers are distinct,
    the second run changes the result of the first, appending an identifier
    a second time. *)
Lemma disambiguateDisplayNames_not_idempotent :
  List.map nameOf (disambiguateDisplayNames Samples.sams)
    = ["Sam (s1)"; "Sam (s2)"; "Sam (s1)"] /\
  List.map nameOf
    (disambiguateDisplayNames (disambiguateDisplayNames Samples.sams))
    = ["Sam (s1) (s1)"; "Sam (s2)"; "Sam (s1) (s3)"] /\
  disambiguateDisplayNames (disambiguateDisplayNames Samples.sams)
    <> disambiguateDisplayNames Samples.sams.
Proof.
  split; [reflexivity|]. split; [reflexivity|].
  intros H. apply (f_equal (List.map nameOf)) in H. discriminate H.
Qed.

End Idempotence.

(** ** The pipeline *)

Section PipelineFacts.

Import Grouping Spec.

Implicit Types (items : list GraphDriveItem.t) (item : GraphDriveItem.t).

Lemma isImageItem_declaresImage item : isImageItem item = declaresImage item.
Proof.
  unfold isImageItem, declaresImage, Models.isImageMimeType.
  destruct (GraphDriveItem.file item) as [f|]; [|done].
  destruct (Js.startsWith (GraphFile.mimeType f) "image/") eqn:E.
  - by rewrite (isImageMimeType_truthy _ E).
  - apply andb_false_r.
Qed.

(** The mapping loop never throws: it appends the images of the accepted
    items, and one error entry for each rejected item, in input order. *)
Lemma mapItems_result (clock : nat -> string) items :
  forall (i : nat) (sharedImages : list SharedImage.t) (errors : list string),
  exists mapped,
    mapItems clock i items sharedImages errors
      = (errors ++ List.map failureOf (List.filter rejected items),
         Js.Normal (sharedImages ++ mapped)) /\
    List.map SharedImage.id mapped
      = List.map GraphDriveItem.id (List.filter accepted items) /\
    Forall (mappedFrom items) mapped.
Proof.
  induction items as [|item items IH]; intros i acc errs.
  - exists []. simpl. by rewrite !app_nil_r.
  - simpl. unfold accepted at 1.
    destruct (rejected item) eqn:Hr; simpl.
    + rewrite (mapToSharedImage_rejected _ _ Hr).
      destruct (IH (S i) acc (errs ++ [failureOf item]))
        as (mapped & Hrun & Hids & Hfrom).
      exists mapped. fold (failureOf item). rewrite Hrun, <- app_assoc.
      split; [done|]. split; [done|].
      eapply Forall_impl; [exact Hfrom|].
      intros img (it & now & Hin & Hmap). exists it, now. split; [by right | done].
    + destruct (mapToSharedImage_accepted (clock i) item Hr)
        as (img & _ & _ & Hmap & _ & _ & Hid & _).
      rewrite Hmap.
      destruct (IH (S i) (acc ++ [img]) errs) as (mapped & Hrun & Hids & Hfrom).
      exists (img :: mapped). rewrite Hrun, <- app_assoc.
      split; [done|]. split; [simpl; by rewrite Hid, Hids|].
      constructor.
      * exists item, (clock i). split; [by left | done].
      * eapply Forall_impl; [exact Hfrom|].
        intros img' (it & now & Hin & Hmap'). exists it, now.
        split; [by right | done].
Qed.

(** What [processGraphItems] returns: its [catch] branch is never taken. *)
Lemma processGraphItems_result (localeCompare : string -> string -> Z)
    (clock : nat -> string) items :
  exists mapped made,
    processGraphItems localeCompare clock items = {|
      ProcessResult.groupings :=
        disambiguateDisplayNames (sort (byDisplayName localeCompare) made);
      ProcessResult.allPeople :=
        List.map PeopleGrouping.person
          (disambiguateDisplayNames (sort (byDisplayName localeCompare) made));
      ProcessResult.totalImages := length mapped;
      ProcessResult.errors :=
        List.map failureOf (List.filter rejected (filterImagesByMime items)) |} /\
    List.map SharedImage.id mapped
      = List.map GraphDriveItem.id
          (List.filter accepted (filterImagesByMime items)) /\
    Forall (mappedFrom (filterImagesByMime items)) mapped /\
    NoDup (List.map identifierOf made) /\
    (forall g, In g made -> madeFrom (groupOf mapped (identifierOf g)) g) /\
    Permutation (List.concat (List.map PeopleGrouping.images made)) mapped.
Proof.
  destruct (mapItems_result clock (filterImagesByMime items) 0 [] [])
    as (mapped & Hrun & Hids & Hfrom).
  destruct (groupBySharer_groups localeCompare mapped)
    as (made & Hgroup & Hnd & _ & Hmade & Hperm).
  exists mapped, made. split; [|done].
  unfold processGraphItems. rewrite Hrun. simpl. by rewrite Hgroup.
Qed.

(** The images of the groupings are not touched by the disambiguation. *)
Lemma disambiguateDisplayNames_images (groupings : list PeopleGrouping.t) :
  List.map PeopleGrouping.images (disambiguateDisplayNames groupings)
  = List.map PeopleGrouping.images groupings.
Proof.
  rewrite disambiguateDisplayNames_relabel, List.map_map.
  apply map_ext. intros g. unfold relabel. by destruct (_ <? _).
Qed.

Lemma disambiguateDisplayNames_identifiers (groupings : list PeopleGrouping.t) :
  List.map identifierOf (disambiguateDisplayNames groupings)
  = List.map identifierOf groupings.
Proof.
  rewrite disambiguateDisplayNames_relabel, List.map_map.
  apply map_ext. intros g. unfold relabel. by destruct (_ <? _).
Qed.

(** The images that the pipeline hands over, flattened as [loadData] does,
    are the images of the mapping loop. *)
Lemma processGraphItems_images (localeCompare : string -> string -> Z)
    (clock : nat -> string) items :
  exists mapped,
    Permutation
      (List.concat (List.map PeopleGrouping.images
         (ProcessResult.groupings
            (processGraphItems localeCompare clock items))))
      mapped /\
    ProcessResult.totalImages (processGraphItems localeCompare clock items)
      = length mapped /\
    List.map SharedImage.id mapped
      = List.map GraphDriveItem.id
          (List.filter accepted (filterImagesByMime items)) /\
    Forall (mappedFrom (filterImagesByMime items)) mapped.
Proof.
  destruct (processGraphItems_result localeCompare clock items)
    as (mapped & made & -> & Hids & Hfrom & _ & _ & Hperm).
  exists mapped. simpl. split; [|done].
  rewrite disambiguateDisplayNames_images, <- Hperm.
  apply concat_images_perm, sort_perm.
Qed.

End PipelineFacts.

Section Pipeline.

Import Grouping Spec.

Variable localeCompare : string -> string -> Z.
Variable clock : nat -> string.

Implicit Types (items : list GraphDriveItem.t) (item : GraphDriveItem.t).

Lemma filter_filter_andb {A} (f g : A -> bool) (l : list A) :
  List.filter g (List.filter f l) = List.filter (fun x => f x && g x) l.
Proof.
  induction l as [|x l IH]; simpl; [done|].
  destruct (f x); simpl; [|exact IH]. destruct (g x); by rewrite IH.
Qed.

Lemma accepted_or_rejected items :
  length (List.filter (fun item => isImageItem item && accepted item) items)
  + length (List.filter (fun item => isImageItem item && rejected item) items)
  = length (filterImagesByMime items).
Proof.
  unfold filterImagesByMime, accepted.
  induction items as [|item items IH]; simpl; [done|].
  destruct (isImageItem item); simpl; [|exact IH].
  destruct (rejected item); simpl; lia.
Qed.

(** C8, as the code has it. [processGraphItems] records one entry
    ["Failed to process item: <id>"], in input order, for each item that
    passes the image filter and is mapped to [null] - that is, whose name
    is empty or whose sharer lacks a display name or lacks both id and
    e-mail address. An item that does not pass the image filter is
    excluded without an entry. Processing continues: each item that passes
    the filter either is among the returned images or has its entry. *)
Theorem processGraphItems_errors items :
  let result := processGraphItems localeCompare clock items in
  ProcessResult.errors result
    = List.map failureOf
        (List.filter (fun item => isImageItem item && rejected item) items) /\
  (forall item, isImageItem item = true ->
     (rejected item = true <->
      ~ (GraphDriveItem.name item <> "" /\ sharer_complete item))) /\
  ProcessResult.totalImages result
    = length
        (List.filter (fun item => isImageItem item && accepted item) items) /\
  ProcessResult.totalImages result + length (ProcessResult.errors result)
    = length (filterImagesByMime items) /\
  Permutation
    (List.map SharedImage.id
       (List.concat
          (List.map PeopleGrouping.images (ProcessResult.groupings result))))
    (List.map GraphDriveItem.id
       (List.filter (fun item => isImageItem item && accepted item) items)).
Proof.
  intros result.
  destruct (processGraphItems_images localeCompare clock items)
    as (mapped & Hperm & Htotal & Hids & _).
  destruct (processGraphItems_result localeCompare clock items)
    as (mapped' & made & Hres & _).
  fold result in Hperm, Htotal, Hres.
  assert (ProcessResult.errors result
    = List.map failureOf
        (List.filter (fun item => isImageItem item && rejected item) items))
    as Herr.
  { rewrite Hres. simpl. unfold filterImagesByMime.
    by rewrite filter_filter_andb. }
  assert (length mapped
    = length
        (List.filter (fun item => isImageItem item && accepted item) items))
    as Hlen.
  { rewrite <- (length_map SharedImage.id), Hids, length_map.
    unfold filterImagesByMime. by rewrite filter_filter_andb. }
  split; [exact Herr|]. split; [|split; [|split]].
  - intros item Himg. pose proof (rejected_false_iff item Himg) as Hiff.
    destruct (rejected item); split; try done.
    + intros _ H. apply Hiff in H. done.
    + intros H. destruct H. by apply Hiff.
  - by rewrite Htotal.
  - rewrite Htotal, Herr, Hlen, length_map. apply accepted_or_rejected.
  - rewrite Hperm, Hids. unfold filterImagesByMime.
    by rewrite filter_filter_andb.
Qed.

End Pipeline.

Section PipelineSamples.

Import Grouping Spec.

Lemma processGraphItems_errors_witness :
  ProcessResult.errors
    (processGraphItems Samples.codeCompare Samples.clock
       [Samples.beach; Samples.document; Samples.unnamed; Samples.anonymous;
        Samples.party])
  = ["Failed to process item: 4"; "Failed to process item: 1"] /\
  ProcessResult.totalImages
    (processGraphItems Samples.codeCompare Samples.clock
       [Samples.beach; Samples.document; Samples.unnamed; Samples.anonymous;
        Samples.party])
  = 2.
Proof.
  destruct (processGraphItems_errors Samples.codeCompare Samples.clock
    [Samples.beach; Samples.document; Samples.unnamed; Samples.anonymous;
     Samples.party]) as (Herr & _ & Htotal & _).
  split; [exact Herr | exact Htotal].
Defined.

(** C8 as stated fails: a folder (no MIME type) and a document (no image
    MIME type) are excluded from the result, and no entry is recorded for
    either of them. *)
Lemma processGraphItems_filter_is_silent :
  mapToSharedImage (Samples.clock 0) Samples.folder = Js.Normal None /\
  ProcessResult.groupings
    (processGraphItems Samples.codeCompare Samples.clock
       [Samples.folder; Samples.document]) = [] /\
  ProcessResult.errors
    (processGraphItems Samples.codeCompare Samples.clock
       [Samples.folder; Samples.document]) = [] /\
  ~ In (failureOf Samples.folder)
       (ProcessResult.errors
          (processGraphItems Samples.codeCompare Samples.clock
             [Samples.folder; Samples.document])).
Proof.
  split; [reflexivity|]. split; [reflexivity|]. split; [reflexivity|].
  intros [].
Qed.

End PipelineSamples.

(** ** The MIME type invariant *)

Section MimeInvariant.

Import Grouping Spec.

Variable localeCompare : string -> string -> Z.
Variable clock : nat -> string.

Implicit Types (items : list GraphDriveItem.t) (item : GraphDriveItem.t).

Lemma filterImagesByMime_declaresImage items :
  filterImagesByMime items = List.filter declaresImage items.
Proof.
  unfold filterImagesByMime. apply filter_ext. intros item.
  apply isImageItem_declaresImage.
Qed.

(** A mapped image has the MIME type of the item it was mapped from. *)
Lemma mappedFrom_mimeType items (img : SharedImage.t) :
  mappedFrom items img ->
  exists item f,
    In item items /\ GraphDriveItem.file item = Some f /\
    SharedImage.mimeType img = GraphFile.mimeType f.
Proof.
  intros (item & now & Hin & Hmap). exists item.
  destruct (rejected item) eqn:Hr.
  - rewrite (mapToSharedImage_rejected _ _ Hr) in Hmap. done.
  - destruct (mapToSharedImage_accepted now item Hr)
      as (img' & f & _ & Hmap' & Hf & _ & _ & _ & Hm & _).
    rewrite Hmap in Hmap'. injection Hmap' as <-. eauto.
Qed.

(** C9. The image filter keeps exactly the items whose declared MIME type
    starts with [image/], in input order, and drops the items without a
    MIME type. Every image in the groupings that [processGraphItems]
    returns has a MIME type that starts with [image/], is an image that
    [mapToSharedImage] made from an item that the filter kept, and has the
    MIME type of the item it was mapped from: grouping, sorting and
    disambiguation hand the mapped images on as they are. No image is
    added or lost on the way: the images of the groupings are, up to
    order, the images of the kept items that the mapping accepts. *)
Theorem pipeline_mimeType_invariant items :
  filterImagesByMime items = List.filter declaresImage items /\
  (forall item,
     In item (filterImagesByMime items) <->
     In item items /\
     exists f, GraphDriveItem.file item = Some f /\
       Js.startsWith (GraphFile.mimeType f) "image/" = true) /\
  (forall g img,
     In g (ProcessResult.groupings
             (processGraphItems localeCompare clock items)) ->
     In img (PeopleGrouping.images g) ->
     Js.startsWith (SharedImage.mimeType img) "image/" = true /\
     mappedFrom (filterImagesByMime items) img /\
     forall item now,
       mapToSharedImage now item = Js.Normal (Some img) ->
       exists f,
         GraphDriveItem.file item = Some f /\
         SharedImage.mimeType img = GraphFile.mimeType f) /\
  Permutation
    (List.map SharedImage.id
       (flatten (ProcessResult.groupings
                   (processGraphItems localeCompare clock items))))
    (List.map GraphDriveItem.id
       (List.filter accepted (filterImagesByMime items))).
Proof.
  destruct (processGraphItems_images localeCompare clock items)
    as (mapped & Hperm & _ & Hids & Hfrom).
  split; [apply filterImagesByMime_declaresImage|]. split; [|split].
  - intros item. rewrite filterImagesByMime_declaresImage, filter_In.
    unfold declaresImage. split.
    + intros [Hin Hd]. split; [done|].
      destruct (GraphDriveItem.file item) as [f|]; [eauto | done].
    + intros [Hin (f & -> & Hs)]. done.
  - intros g img Hg Himg.
    assert (In img mapped) as Hin.
    { apply list_elem_of_In. rewrite <- Hperm. apply list_elem_of_In.
      apply in_concat. exists (PeopleGrouping.images g).
      split; [by apply in_map | done]. }
    rewrite Forall_forall in Hfrom.
    apply list_elem_of_In, Hfrom in Hin.
    assert (forall item now,
      mapToSharedImage now item = Js.Normal (Some img) ->
      exists f,
        GraphDriveItem.file item = Some f /\
        SharedImage.mimeType img = GraphFile.mimeType f) as Hsame.
    { intros item now Hmap. destruct (rejected item) eqn:Hr.
      - rewrite (mapToSharedImage_rejected _ _ Hr) in Hmap. done.
      - destruct (mapToSharedImage_accepted now item Hr)
          as (img' & f & _ & Hmap' & Hf & _ & _ & _ & Hm & _).
        rewrite Hmap in Hmap'. injection Hmap' as <-. eauto. }
    split; [|done].
    destruct Hin as (item & now & Hitem & Hmap).
    destruct (Hsame item now Hmap) as (f & Hf & Hm).
    apply filter_In in Hitem as [_ His].
    apply isImageItem_file in His as (f' & Hf' & His & _).
    rewrite Hf in Hf'. injection Hf' as <-. by rewrite Hm.
  - unfold flatten. rewrite <- Hids. by apply Permutation_map.
Qed.

End MimeInvariant.

Section MimeInvariantSample.

Import Grouping Spec.

Lemma pipeline_mimeType_invariant_witness :
  let items := [Samples.beach; Samples.folder; Samples.document] in
  let groupings :=
    ProcessResult.groupings
      (processGraphItems Samples.codeCompare Samples.clock items) in
  filterImagesByMime items = [Samples.beach] /\
  List.map SharedImage.mimeType (flatten groupings) = ["image/jpeg"] /\
  Forall
    (fun g => Forall
       (fun img =>
          Js.startsWith (SharedImage.mimeType img) "image/" = true /\
          mappedFrom [Samples.beach] img)
       (PeopleGrouping.images g))
    groupings.
Proof.
  intros items groupings.
  destruct (pipeline_mimeType_invariant Samples.codeCompare Samples.clock
              items) as (Hfilter & _ & Hinv & _).
  split; [rewrite Hfilter; reflexivity|]. split; [reflexivity|].
  apply Forall_forall. intros g Hg. apply Forall_forall. intros img Himg.
  apply list_elem_of_In in Hg, Himg.
  destruct (Hinv g img Hg Himg) as (Hmime & Hfrom & _).
  split; [exact Hmime | exact Hfrom].
Defined.

End MimeInvariantSample.

(** ** The selection state engine *)

Section SelectionFacts.

Import Selection Spec.

Variable localeCompare : string -> string -> Z.

Implicit Types (state : SelectionState.t) (events : list Event).

Lemma run_app state events events' :
  run localeCompare state (events ++ events')
  = run localeCompare (run localeCompare state events) events'.
Proof. unfold run. apply fold_left_app. Qed.

Lemma loadData_settled_failed (clock : nat -> string) (outcome : FetchOutcome) :
  failed outcome = true ->
  exists message,
    loadData_settled localeCompare clock outcome = [SET_ERROR (Some message)].
Proof.
  destruct outcome as [result|message|]; simpl; intros Hf.
  - rewrite Hf. apply truthy_opt_true in Hf as (message & -> & _). eauto.
  - eauto.
  - eauto.
Qed.

(** A refresh whose failure [loadData] sees - the promise rejects, or it
    resolves with a truthy error message - leaves the state with the
    [displayImages], [availablePeople] and [selectedPerson] it had before,
    with [isLoading] [false] and with a message in [error]. The two
    transitions involved, [REFRESH_DATA] and [SET_ERROR], leave the
    displayed data as it is in every state. *)
Lemma refresh_failure_keeps_data state (request : nat)
    (clock : nat -> string) (outcome : FetchOutcome) :
  failed outcome = true ->
  let state' :=
    run localeCompare state
      [RefreshDataCalled; FetchSettled request clock outcome] in
  SelectionState.displayImages state' = SelectionState.displayImages state /\
  SelectionState.availablePeople state'
    = SelectionState.availablePeople state /\
  SelectionState.selectedPerson state'
    = SelectionState.selectedPerson state /\
  SelectionState.isLoading state' = false /\
  (exists message, SelectionState.error state' = Some message) /\
  (forall payload,
     SelectionState.displayImages (selectionReducer state (SET_ERROR payload))
       = SelectionState.displayImages state /\
     SelectionState.availablePeople (selectionReducer state (SET_ERROR payload))
       = SelectionState.availablePeople state /\
     SelectionState.error (selectionReducer state (SET_ERROR payload))
       = payload /\
     SelectionState.isLoading (selectionReducer state (SET_ERROR payload))
       = false) /\
  SelectionState.displayImages (selectionReducer state REFRESH_DATA)
    = SelectionState.displayImages state /\
  SelectionState.availablePeople (selectionReducer state REFRESH_DATA)
    = SelectionState.availablePeople state.
Proof.
  intros Hf state'.
  destruct (loadData_settled_failed clock outcome Hf) as (message & Hd).
  subst state'. unfold run. simpl. rewrite Hd. simpl.
  repeat split. by exists message.
Qed.

End SelectionFacts.

Section SelectionSamples.

Import Selection Spec.

(** Scenario D of the specification, after the initial load of the mock
    items: a refresh that fails with a message keeps what is displayed. *)
Lemma refresh_failure_keeps_data_sample :
  let state' :=
    run Samples.codeCompare Samples.loaded
      [RefreshDataCalled;
       FetchSettled 1 Samples.clock (RejectedError "Graph API error: 503")] in
  length (SelectionState.displayImages Samples.loaded) = 3 /\
  SelectionState.displayImages state'
    = SelectionState.displayImages Samples.loaded /\
  SelectionState.availablePeople state'
    = SelectionState.availablePeople Samples.loaded /\
  SelectionState.error state' = Some "Graph API error: 503".
Proof.
  destruct (refresh_failure_keeps_data Samples.codeCompare Samples.loaded 1
              Samples.clock (RejectedError "Graph API error: 503") eq_refl)
    as (Himages & Hpeople & _).
  split; [reflexivity|]. split; [exact Himages|]. split; [exact Hpeople|].
  reflexivity.
Qed.


End SelectionSamples.

(** ** Loading and the selection *)

Section LoadFacts.

Import Selection Spec.

Variable localeCompare : string -> string -> Z.

Implicit Types (state : SelectionState.t) (events : list Event).
Implicit Types (groupings : list PeopleGrouping.t) (g : PeopleGrouping.t).

(** The state after a fetch has settled with a result. *)
Lemma fetch_settled_state state (request : nat) (clock : nat -> string)
    (result : FetchResult.t) :
  Js.truthy_opt (FetchResult.error result) = false ->
  let processed :=
    Grouping.processGraphItems localeCompare clock (FetchResult.items result) in
  run localeCompare state [FetchSettled request clock (Resolved result)] = {|
    SelectionState.selectedPerson := SelectionState.selectedPerson state;
    SelectionState.displayImages :=
      viewOf (SelectionState.selectedPerson state)
        (flatten (ProcessResult.groupings processed));
    SelectionState.availablePeople := ProcessResult.allPeople processed;
    SelectionState.isLoading := false;
    SelectionState.error := None |}.
Proof.
  intros Hf processed. unfold run. simpl. rewrite Hf. simpl.
  by destruct (SelectionState.selectedPerson state).
Qed.

Lemma filter_none {A} (f : A -> bool) (l : list A) :
  (forall x, In x l -> f x = false) -> List.filter f l = [].
Proof.
  induction l as [|x l IH]; simpl; intros H; [done|].
  rewrite (H x) by by left. apply IH. intros y Hy. apply H. by right.
Qed.

Lemma filter_all {A} (f : A -> bool) (l : list A) :
  (forall x, In x l -> f x = true) -> List.filter f l = l.
Proof.
  induction l as [|x l IH]; simpl; intros H; [done|].
  rewrite (H x) by by left. f_equal. apply IH. intros y Hy. apply H. by right.
Qed.

(** The images of an identifier, among the flattened images of keyed
    groupings: none when the identifier has no grouping, the images of its
    grouping otherwise. *)
Lemma filter_flatten_absent groupings (k : string) :
  keyed groupings ->
  (forall g, In g groupings -> identifierOf g <> k) ->
  List.filter (sharedWith k) (flatten groupings) = [].
Proof.
  intros [_ Hkey] Habs. apply filter_none.
  intros img (imgs & (g & <- & Hg)%in_map_iff & Himg)%in_concat.
  apply not_true_iff_false. rewrite sharedWith_true, (Hkey g img Hg Himg).
  by apply Habs.
Qed.

Lemma filter_flatten_present groupings g :
  keyed groupings -> In g groupings ->
  List.filter (sharedWith (identifierOf g)) (flatten groupings)
  = PeopleGrouping.images g.
Proof.
  intros [Hnd Hkey] Hg. unfold flatten.
  induction groupings as [|g' groupings IH]; [done|].
  simpl in *. apply NoDup_cons in Hnd as [Hnew Hnd].
  assert (forall g0 img, In g0 groupings ->
            In img (PeopleGrouping.images g0) ->
            Sharer.identifier (SharedImage.sharedBy img) = identifierOf g0)
    as Hkey' by (intros g0 img Hg0 Himg; apply Hkey; [by right | done]).
  assert (forall g0, In g0 groupings -> identifierOf g0 <> identifierOf g')
    as Hother.
  { intros g0 Hg0 Heq. apply Hnew. rewrite <- Heq.
    apply list_elem_of_In. by apply in_map. }
  rewrite List.filter_app. destruct Hg as [->|Hg].
  - rewrite filter_all.
    + pose proof (filter_flatten_absent groupings (identifierOf g)
                    (conj Hnd Hkey') Hother) as Habs.
      unfold flatten in Habs. by rewrite Habs, app_nil_r.
    + intros img Himg. apply sharedWith_true. apply Hkey; [by left | done].
  - rewrite filter_none.
    + by apply IH.
    + intros img Himg. apply not_true_iff_false. rewrite sharedWith_true.
      rewrite (Hkey g' img (or_introl eq_refl) Himg). intros Heq.
      by apply (Hother g Hg).
Qed.

(** The groupings that the pipeline returns are keyed. *)
Lemma processGraphItems_keyed (clock : nat -> string)
    (items : list GraphDriveItem.t) :
  keyed (ProcessResult.groupings
           (Grouping.processGraphItems localeCompare clock items)) /\
  ProcessResult.allPeople (Grouping.processGraphItems localeCompare clock items)
  = List.map PeopleGrouping.person
      (ProcessResult.groupings
         (Grouping.processGraphItems localeCompare clock items)).
Proof.
  destruct (processGraphItems_result localeCompare clock items)
    as (mapped & made & -> & _ & _ & Hnd & Hmade & _).
  simpl. split; [|done].
  pose proof (sort_perm (Grouping.byDisplayName localeCompare) made) as Hsort.
  split.
  - by rewrite disambiguateDisplayNames_identifiers, Hsort.
  - intros g img Hg Himg.
    rewrite disambiguateDisplayNames_relabel in Hg.
    apply in_map_iff in Hg as (g0 & <- & Hg0).
    apply list_elem_of_In in Hg0. rewrite Hsort in Hg0.
    apply list_elem_of_In in Hg0.
    assert (PeopleGrouping.images (relabel
              (Grouping.sort (Grouping.byDisplayName localeCompare) made) g0)
            = PeopleGrouping.images g0) as Hi
      by (unfold relabel; by destruct (_ <? _)).
    assert (identifierOf (relabel
              (Grouping.sort (Grouping.byDisplayName localeCompare) made) g0)
            = identifierOf g0) as ->
      by (unfold relabel; by destruct (_ <? _)).
    rewrite Hi in Himg.
    destruct (Hmade g0 Hg0) as (_ & Himgs & _). simpl in Himgs.
    rewrite Himgs in Himg. apply filter_In in Himg as [_ Hs].
    by apply sharedWith_true.
Qed.

End LoadFacts.

Section Load.

Import Selection Spec.

Variable localeCompare : string -> string -> Z.

Implicit Types (state : SelectionState.t) (events : list Event).

(** C2, as the code has it. When the fetch of a load or refresh settles
    with a result, the state takes the new people list; [selectedPerson] is
    left as it is, whether or not that person is among the new people; and
    [displayImages] becomes the new flattened image list when nobody is
    selected, and otherwise the images of that list whose
    [sharedBy.identifier] is the selected person's identifier. So when the
    selected person has a grouping in the new data the view shows the
    images of that grouping, and when the selected person is absent from
    the new data the view is empty: there is no fallback to "show all". *)
Theorem load_success_filters_by_selection state (request : nat)
    (clock : nat -> string) (result : FetchResult.t) :
  Js.truthy_opt (FetchResult.error result) = false ->
  let processed :=
    Grouping.processGraphItems localeCompare clock (FetchResult.items result) in
  let allImages := flatten (ProcessResult.groupings processed) in
  let state' :=
    run localeCompare state [FetchSettled request clock (Resolved result)] in
  SelectionState.selectedPerson state' = SelectionState.selectedPerson state /\
  SelectionState.availablePeople state' = ProcessResult.allPeople processed /\
  SelectionState.isLoading state' = false /\
  SelectionState.error state' = None /\
  (SelectionState.selectedPerson state = None ->
   SelectionState.displayImages state' = allImages) /\
  (forall person, SelectionState.selectedPerson state = Some person ->
     SelectionState.displayImages state'
       = List.filter
           (fun img =>
              String.eqb (Sharer.identifier (SharedImage.sharedBy img))
                         (Person.identifier person))
           allImages /\
     (forall g, In g (ProcessResult.groupings processed) ->
        identifierOf g = Person.identifier person ->
        SelectionState.displayImages state' = PeopleGrouping.images g) /\
     ((forall other, In other (ProcessResult.allPeople processed) ->
         Person.identifier other <> Person.identifier person) ->
      SelectionState.displayImages state' = [])).
Proof.
  intros Hf processed allImages state'.
  subst state'.
  rewrite (fetch_settled_state localeCompare state request clock result Hf).
  fold processed. fold allImages. cbn [SelectionState.selectedPerson
    SelectionState.displayImages SelectionState.availablePeople
    SelectionState.isLoading SelectionState.error].
  destruct (processGraphItems_keyed localeCompare clock
              (FetchResult.items result)) as [Hkeyed Hpeople].
  fold processed in Hkeyed, Hpeople.
  split; [done|]. split; [done|]. split; [done|]. split; [done|].
  split; [by intros ->|].
  intros person ->. simpl. split; [done|]. split.
  - intros g Hg <-. by apply filter_flatten_present.
  - intros Habs. apply filter_flatten_absent; [done|].
    intros g Hg. apply Habs. rewrite Hpeople. by apply in_map.
Qed.

End Load.

Section LoadSamples.

Import Selection Spec.

(** A refresh with Alice selected, in data that still has Alice. *)
Lemma load_success_filters_by_selection_witness :
  let state :=
    run Samples.codeCompare Samples.loaded
      [SelectPersonCalled (Some Samples.alice); RefreshDataCalled] in
  let state' :=
    run Samples.codeCompare state
      [FetchSettled 1 Samples.clock
         (Samples.fetched [Samples.beach; Samples.party; Samples.hiking])] in
  SelectionState.selectedPerson state' = Some Samples.alice /\
  List.map SharedImage.id (SelectionState.displayImages state')
    = ["mock-item-1"; "mock-item-3"].
Proof.
  intros state state'.
  destruct (load_success_filters_by_selection Samples.codeCompare state 1
              Samples.clock
              {| FetchResult.items :=
                   [Samples.beach; Samples.party; Samples.hiking];
                 FetchResult.error := None |} eq_refl)
    as (Hsel & _ & _ & _ & _ & Hview).
  split; [exact Hsel|].
  destruct (Hview Samples.alice eq_refl) as [Himages _].
  subst state'. unfold Samples.fetched. rewrite Himages. reflexivity.
Defined.

(** C2 as stated fails: Bob is selected, and a refresh brings data in
    which Bob no longer is. The state keeps Bob selected and shows no
    image, although the new data has one. *)
Lemma refresh_without_selected_person_shows_nothing :
  let state :=
    run Samples.codeCompare Samples.loaded
      [SelectPersonCalled (Some Samples.bob); RefreshDataCalled] in
  let state' :=
    run Samples.codeCompare state
      [FetchSettled 1 Samples.clock (Samples.fetched [Samples.beach])] in
  In Samples.bob (SelectionState.availablePeople Samples.loaded) /\
  List.map Person.identifier (SelectionState.availablePeople state')
    = ["alice.johnson@example.com"] /\
  length
    (flatten
       (ProcessResult.groupings
          (Grouping.processGraphItems Samples.codeCompare Samples.clock
             [Samples.beach]))) = 1 /\
  SelectionState.selectedPerson state' = Some Samples.bob /\
  SelectionState.displayImages state' = [].
Proof.
  split; [right; left; reflexivity|].
  split; [reflexivity|]. split; [reflexivity|]. split; reflexivity.
Qed.

End LoadSamples.

(** ** Requests in flight *)

Section InFlight.

Import Selection Spec.

Variable localeCompare : string -> string -> Z.

Implicit Types (state : SelectionState.t) (events : list Event).

(** The state after a fetch has settled with a failure. *)
Lemma fetch_settled_failed state (request : nat) (clock : nat -> string)
    (outcome : FetchOutcome) :
  failed outcome = true ->
  (exists message, messageOf outcome = Some message) /\
  run localeCompare state [FetchSettled request clock outcome] = {|
    SelectionState.selectedPerson := SelectionState.selectedPerson state;
    SelectionState.displayImages := SelectionState.displayImages state;
    SelectionState.availablePeople := SelectionState.availablePeople state;
    SelectionState.isLoading := false;
    SelectionState.error := messageOf outcome |}.
Proof.
  destruct outcome as [result|message|]; simpl; intros Hf.
  - split; [|unfold run; simpl; by rewrite Hf].
    apply truthy_opt_true in Hf as (message & -> & _). eauto.
  - split; [eauto | done].
  - split; [eauto | done].
Qed.

(** C10, as the code has it. The engine keeps no request token: when a
    fetch settles, the state takes its outcome, whichever request it
    belongs to and whatever was called or applied before; no outcome is
    discarded. A fetch that settles with a result replaces the people and
    the images (filtered by the selection) and clears [error]; a fetch that
    fails sets [error] to its message and keeps the people and the images.
    So, once the fetches of two requests in flight have settled, in
    whichever order: [isLoading] is [false] and the selection is as before;
    if the fetch that settled last has a result, people and images are
    those of that result and [error] is [null]; if it failed, [error] is
    its message, and people and images are those of the fetch that settled
    first if that one has a result, and otherwise those that the state had
    before either fetch settled. *)
Theorem last_settled_fetch_wins state events (request request' : nat)
    (clock clock' : nat -> string) (earlier later : FetchOutcome) :
  let before := run localeCompare state events in
  let final :=
    run localeCompare state
      (events ++ [FetchSettled request clock earlier;
                  FetchSettled request' clock' later]) in
  SelectionState.selectedPerson final = SelectionState.selectedPerson before /\
  SelectionState.isLoading final = false /\
  (forall result,
     later = Resolved result ->
     Js.truthy_opt (FetchResult.error result) = false ->
     let processed :=
       Grouping.processGraphItems localeCompare clock'
         (FetchResult.items result) in
     SelectionState.availablePeople final
       = ProcessResult.allPeople processed /\
     SelectionState.displayImages final
       = viewOf (SelectionState.selectedPerson before)
           (flatten (ProcessResult.groupings processed)) /\
     SelectionState.error final = None) /\
  (failed later = true ->
   SelectionState.error final = messageOf later /\
   (exists message, messageOf later = Some message) /\
   (forall result,
      earlier = Resolved result ->
      Js.truthy_opt (FetchResult.error result) = false ->
      let processed :=
        Grouping.processGraphItems localeCompare clock
          (FetchResult.items result) in
      SelectionState.availablePeople final
        = ProcessResult.allPeople processed /\
      SelectionState.displayImages final
        = viewOf (SelectionState.selectedPerson before)
            (flatten (ProcessResult.groupings processed))) /\
   (failed earlier = true ->
    SelectionState.availablePeople final
      = SelectionState.availablePeople before /\
    SelectionState.displayImages final
      = SelectionState.displayImages before)).
Proof.
  intros before final.
  set (between :=
    run localeCompare before [FetchSettled request clock earlier]).
  assert (final
          = run localeCompare between [FetchSettled request' clock' later])
    as Hfinal.
  { subst final between before. rewrite run_app.
    change [FetchSettled request clock earlier;
            FetchSettled request' clock' later]
      with ([FetchSettled request clock earlier]
            ++ [FetchSettled request' clock' later]).
    by rewrite run_app. }
  assert (SelectionState.selectedPerson between
          = SelectionState.selectedPerson before) as Hselection.
  { subst between. destruct (failed earlier) eqn:Hf.
    - destruct (fetch_settled_failed before request clock earlier Hf)
        as [_ ->]. done.
    - destruct earlier as [result| |]; try done.
      by rewrite (fetch_settled_state localeCompare before request clock
                    result Hf). }
  assert (failed later = true ->
          final = {|
            SelectionState.selectedPerson := SelectionState.selectedPerson between;
            SelectionState.displayImages := SelectionState.displayImages between;
            SelectionState.availablePeople :=
              SelectionState.availablePeople between;
            SelectionState.isLoading := false;
            SelectionState.error := messageOf later |}) as Hlater.
  { intros Hf. rewrite Hfinal.
    by destruct (fetch_settled_failed between request' clock' later Hf)
      as [_ ->]. }
  assert (forall result,
          later = Resolved result ->
          Js.truthy_opt (FetchResult.error result) = false ->
          final = run localeCompare between
                    [FetchSettled request' clock' (Resolved result)])
    as Hresult.
  { intros result -> _. exact Hfinal. }
  split; [|split; [|split]].
  - destruct (failed later) eqn:Hf.
    + rewrite (Hlater eq_refl). exact Hselection.
    + destruct later as [result| |]; try done.
      rewrite (Hresult result eq_refl Hf).
      rewrite (fetch_settled_state localeCompare between request' clock'
                 result Hf).
      exact Hselection.
  - destruct (failed later) eqn:Hf.
    + by rewrite (Hlater eq_refl).
    + destruct later as [result| |]; try done.
      rewrite (Hresult result eq_refl Hf).
      by rewrite (fetch_settled_state localeCompare between request' clock'
                    result Hf).
  - intros result Hlast Hf processed.
    rewrite (Hresult result Hlast Hf).
    rewrite (fetch_settled_state localeCompare between request' clock'
               result Hf).
    simpl. by rewrite Hselection.
  - intros Hf. rewrite (Hlater Hf). simpl.
    split; [done|].
    split; [apply (fetch_settled_failed between request' clock' later Hf)|].
    split.
    + intros result -> Hok. subst between.
      by rewrite (fetch_settled_state localeCompare before request clock
                    result Hok).
    + intros Hf'. subst between.
      by destruct (fetch_settled_failed before request clock earlier Hf')
        as [_ ->].
Qed.

End InFlight.

Section InFlightSamples.

Import Selection Spec.

(** Two requests in flight; the fetch of the second one settles first, with
    a result, and the fetch of the first one fails after it. The state
    keeps the people and images of the second request and shows the error
    of the first. With a result for the first request instead, the state
    shows that result. *)
Lemma last_settled_fetch_wins_witness :
  let final :=
    run Samples.codeCompare initialState
      ([LoadDataCalled; RefreshDataCalled]
       ++ [FetchSettled 1 Samples.clock (Samples.fetched [Samples.party]);
           FetchSettled 0 Samples.clock
             (RejectedError "Graph API error: 503")]) in
  let final' :=
    run Samples.codeCompare initialState
      ([LoadDataCalled; RefreshDataCalled]
       ++ [FetchSettled 1 Samples.clock (Samples.fetched [Samples.party]);
           FetchSettled 0 Samples.clock (Samples.fetched [Samples.beach])]) in
  (SelectionState.error final = Some "Graph API error: 503" /\
   SelectionState.availablePeople final
     = ProcessResult.allPeople
         (Grouping.processGraphItems Samples.codeCompare Samples.clock
            [Samples.party]) /\
   List.map Person.displayName (SelectionState.availablePeople final)
     = ["Bob Smith"] /\
   List.map SharedImage.id (SelectionState.displayImages final)
     = ["mock-item-2"]) /\
  (SelectionState.error final' = None /\
   SelectionState.availablePeople final'
     = ProcessResult.allPeople
         (Grouping.processGraphItems Samples.codeCompare Samples.clock
            [Samples.beach]) /\
   List.map Person.displayName (SelectionState.availablePeople final')
     = ["Alice Johnson"]).
Proof.
  intros final final'. split.
  - destruct (last_settled_fetch_wins Samples.codeCompare initialState
                [LoadDataCalled; RefreshDataCalled] 1 0
                Samples.clock Samples.clock
                (Samples.fetched [Samples.party])
                (RejectedError "Graph API error: 503"))
      as (_ & _ & _ & Hfailed).
    destruct (Hfailed eq_refl) as (Herror & _ & Hearlier & _).
    destruct (Hearlier _ eq_refl eq_refl) as [Hpeople _].
    split; [exact Herror|]. split; [exact Hpeople|].
    split; reflexivity.
  - destruct (last_settled_fetch_wins Samples.codeCompare initialState
                [LoadDataCalled; RefreshDataCalled] 1 0
                Samples.clock Samples.clock
                (Samples.fetched [Samples.party])
                (Samples.fetched [Samples.beach]))
      as (_ & _ & Hresult & _).
    destruct (Hresult _ eq_refl eq_refl) as (Hpeople & _ & Herror).
    split; [exact Herror|]. split; [exact Hpeople | reflexivity].
Defined.

(** C10 as stated fails: [loadData] (request 0) and then [refreshData]
    (request 1) are called before either fetch settles; the fetch of
    request 1 settles first. The final state shows the result of request 0,
    which was superseded, and not the result of request 1, which was issued
    last. *)
Lemma superseded_result_is_applied :
  let final :=
    run Samples.codeCompare initialState
      [LoadDataCalled; RefreshDataCalled;
       FetchSettled 1 Samples.clock (Samples.fetched [Samples.party]);
       FetchSettled 0 Samples.clock (Samples.fetched [Samples.beach])] in
  let lastIssuedOnly :=
    run Samples.codeCompare initialState
      [RefreshDataCalled;
       FetchSettled 1 Samples.clock (Samples.fetched [Samples.party])] in
  let supersededOnly :=
    run Samples.codeCompare initialState
      [LoadDataCalled;
       FetchSettled 0 Samples.clock (Samples.fetched [Samples.beach])] in
  final = supersededOnly /\
  List.map SharedImage.id (SelectionState.displayImages final)
    = ["mock-item-1"] /\
  List.map SharedImage.id (SelectionState.displayImages lastIssuedOnly)
    = ["mock-item-2"] /\
  SelectionState.displayImages final
    <> SelectionState.displayImages lastIssuedOnly.
Proof.
  split; [reflexivity|]. split; [reflexivity|]. split; [reflexivity|].
  intros H. apply (f_equal (List.map SharedImage.id)) in H. discriminate H.
Qed.

End InFlightSamples.

(** ** Selecting a person *)

Section Selecting.

Import Selection Spec.

Variable localeCompare : string -> string -> Z.

Implicit Types (state : SelectionState.t).

(** [selectPerson] computes the view from [getAllImagesFromPeople], which
    returns no image. *)
Lemma selectPerson_displayImages state (person : option Person.t) :
  SelectionState.displayImages
    (run localeCompare state [SelectPersonCalled person]) = [].
Proof. unfold run. simpl. by destruct person. Qed.

(** [selectPerson] sets the selection and touches nothing else but the
    view. *)
Lemma selectPerson_selection state (person : option Person.t) :
  SelectionState.selectedPerson
    (run localeCompare state [SelectPersonCalled person]) = person /\
  SelectionState.availablePeople
    (run localeCompare state [SelectPersonCalled person])
    = SelectionState.availablePeople state.
Proof. done. Qed.

End Selecting.

Section SelectingSamples.

Import Selection Spec.

(** C1: the code at a failing input. After the initial load of three
    images, two of them shared by Alice, [selectPerson(alice)] leaves
    [displayImages] empty although Alice is among [availablePeople] and two
    loaded images carry her identifier, and [selectPerson(null)] leaves
    [displayImages] empty although three images are loaded. *)
Theorem selectPerson_shows_no_images :
  In Samples.alice (SelectionState.availablePeople Samples.loaded) /\
  List.map SharedImage.id (SelectionState.displayImages Samples.loaded)
    = ["mock-item-1"; "mock-item-3"; "mock-item-2"] /\
  List.map SharedImage.id
    (List.filter (sharedWith (Person.identifier Samples.alice))
       (SelectionState.displayImages Samples.loaded))
    = ["mock-item-1"; "mock-item-3"] /\
  SelectionState.displayImages
    (run Samples.codeCompare Samples.loaded
       [SelectPersonCalled (Some Samples.alice)]) = [] /\
  SelectionState.displayImages
    (run Samples.codeCompare Samples.loaded [SelectPersonCalled None]) = [].
Proof.
  split; [left; reflexivity|]. repeat split; reflexivity.
Qed.

End SelectingSamples.

(** ** Scenarios of the specification *)

Section Scenarios.

Import Grouping Selection Spec.

(** Scenario A: an image and a document shared by one person. *)
Example scenario_one_image :
  let result :=
    processGraphItems Samples.codeCompare Samples.clock
      [Samples.rawItem "1" "a.jpg" "image/jpeg" "John" "j1" None;
       Samples.document] in
  ProcessResult.totalImages result = 1 /\
  List.map SharedImage.name (flatten (ProcessResult.groupings result))
    = ["a.jpg"] /\
  ProcessResult.allPeople result
    = [{| Person.identifier := "j1"; Person.displayName := "John";
          Person.imageCount := 1 |}].
Proof. repeat split; reflexivity. Qed.

(** Scenario B: two sharers named "Sam". *)
Example scenario_two_sams :
  List.map Person.displayName
    (ProcessResult.allPeople
       (processGraphItems Samples.codeCompare Samples.clock
          [Samples.rawItem "1" "a.jpg" "image/jpeg" "Sam" "s1" None;
           Samples.rawItem "2" "b.jpg" "image/jpeg" "Sam" "s2" None]))
  = ["Sam (s1)"; "Sam (s2)"].
Proof. reflexivity. Qed.

(** Scenario C: nothing is shared. *)
Example scenario_empty :
  run Samples.codeCompare initialState
    [LoadDataCalled; FetchSettled 0 Samples.clock (Samples.fetched [])]
  = initialState.
Proof. reflexivity. Qed.

End Scenarios.

(* ================================================================= *)
(** * Further properties *)

(** ** The image built by the mapping *)

Section MappedImage.

Import Grouping Spec.

Implicit Types (item : GraphDriveItem.t) (img : SharedImage.t).

Lemma hasValidPreview_firstMediumUrl item :
  Models.hasValidPreview item = Js.truthy_opt (firstMediumUrl item).
Proof.
  unfold Models.hasValidPreview, firstMediumUrl.
  by destruct (GraphDriveItem.thumbnails item) as [[|th ths]|].
Qed.

(** [mapToSharedImage] past its guard, as one expression. *)
Lemma mapToSharedImage_value (now : string) item :
  rejected item = false ->
  exists f u,
    GraphDriveItem.file item = Some f /\
    Models.sharedBy_user item = Some u /\
    mapToSharedImage now item = Js.Normal (Some (imageOf now item f u)).
Proof.
  unfold rejected, mapToSharedImage, imageOf. intros Hg. rewrite Hg.
  apply orb_false_iff in Hg as [[Hn Hf]%orb_false_iff Hs].
  apply negb_false_iff in Hs.
  unfold file_mimeType_falsy in Hf.
  destruct (GraphDriveItem.file item) as [f|] eqn:Ef; [|discriminate].
  unfold Models.hasValidSharer, Models.sharedBy_user in *.
  destruct (GraphDriveItem.sharedBy item) as [sb|] eqn:Esb; [|discriminate].
  simpl in *.
  destruct (GraphSharedBy.user sb) as [u|] eqn:Eu; [|discriminate].
  exists f, u. split; [done|]. split; [done|]. simpl.
  assert (default now (timestamp item)
          = match GraphDriveItem.shared item with
            | Some sh =>
                if Js.truthy (GraphShared.sharedDateTime sh)
                then GraphShared.sharedDateTime sh else now
            | None => now
            end) as ->.
  { unfold timestamp. destruct (GraphDriveItem.shared item) as [sh|]; [|done].
    by destruct (Js.truthy (GraphShared.sharedDateTime sh)). }
  unfold Models.hasValidPreview, firstMediumUrl, Models.medium_url,
    sharer_identifier.
  destruct (GraphDriveItem.thumbnails item) as [[|th ths]|]; simpl; try done.
  destruct (GraphThumbnail.medium th) as [m|]; simpl; [|done].
  by destruct (Js.truthy (GraphUrl.url m)).
Qed.

(** Whatever the clock, an item is mapped to an image built by [imageOf],
    or to [null]. *)
Lemma mapToSharedImage_Some (now : string) item img :
  mapToSharedImage now item = Js.Normal (Some img) ->
  rejected item = false /\
  exists f u,
    GraphDriveItem.file item = Some f /\
    Models.sharedBy_user item = Some u /\
    img = imageOf now item f u.
Proof.
  intros Hmap. destruct (rejected item) eqn:Hr.
  - by rewrite (mapToSharedImage_rejected _ _ Hr) in Hmap.
  - split; [done|].
    destruct (mapToSharedImage_value now item Hr) as (f & u & Hf & Hu & Hv).
    rewrite Hmap in Hv. injection Hv as ->. eauto.
Qed.

Lemma sharer_identifier_nonempty item (u : GraphUser.t) :
  Models.hasValidSharer item = true -> Models.sharedBy_user item = Some u ->
  sharer_identifier u <> "".
Proof.
  unfold Models.hasValidSharer. intros Hv Hu. rewrite Hu in Hv.
  apply andb_true_iff in Hv as [_ Hid]. unfold sharer_identifier.
  destruct (GraphUser.email u) as [e|]; simpl in Hid.
  - destruct (Js.truthy e) eqn:He; [by apply truthy_true|].
    rewrite orb_false_r in Hid. by apply truthy_true.
  - rewrite orb_false_r in Hid. by apply truthy_true.
Qed.

(** X1. The thumbnail of a mapped image: when the item has a valid preview
    it is the medium url of the item's first thumbnail, a non-empty string;
    in every other case it is [null] - never an empty string, and a missing
    thumbnail never makes the mapping fail. The gallery item made from the
    image has a thumbnail exactly when the item has a valid preview, and
    then (and only then) its placeholder text is empty. *)
Theorem mapped_thumbnail (now : string) item img :
  mapToSharedImage now item = Js.Normal (Some img) ->
  (Models.hasValidPreview item = true ->
   exists u,
     Preview.thumbnailUrl (SharedImage.preview img) = Some u /\
     u <> "" /\ firstMediumUrl item = Some u) /\
  (Models.hasValidPreview item = false ->
   Preview.thumbnailUrl (SharedImage.preview img) = None) /\
  Preview.thumbnailUrl (SharedImage.preview img) <> Some "" /\
  GalleryItem.hasThumbnail (toGalleryItem img) = Models.hasValidPreview item /\
  (GalleryItem.placeholder (toGalleryItem img) = "" <->
   Models.hasValidPreview item = true) /\
  GalleryItem.image (toGalleryItem img) = img.
Proof.
  intros (_ & f & u & _ & _ & ->)%mapToSharedImage_Some.
  unfold toGalleryItem. simpl.
  rewrite hasValidPreview_firstMediumUrl.
  destruct (Js.truthy_opt (firstMediumUrl item)) eqn:Ht; simpl.
  - rewrite Ht. apply truthy_opt_true in Ht as (url & Hurl & Hne).
    rewrite Hurl. split; [eauto|]. split; [done|]. split; [congruence|].
    split; [done|]. split; [done|done].
  - split; [done|]. split; [done|]. split; [done|]. split; [done|].
    split; [|done]. split; [discriminate | done].
Qed.

Lemma mapped_thumbnail_witness :
  exists img,
    mapToSharedImage "2025-09-16T08:00:00.000Z" (List.hd Samples.beach Data.mockItems)
      = Js.Normal (Some img) /\
    Preview.thumbnailUrl (SharedImage.preview img)
      = Some "https://picsum.photos/300/200?random=1" /\
    GalleryItem.placeholder (toGalleryItem img) = "".
Proof.
  eexists. split; [reflexivity|].
  destruct (mapped_thumbnail "2025-09-16T08:00:00.000Z"
              (List.hd Samples.beach Data.mockItems) _ eq_refl)
    as (Hurl & _ & _ & _ & Hplace & _).
  split; [reflexivity|]. by apply Hplace.
Defined.

End MappedImage.

(** ** The clock *)

Section Clock.

Import Grouping Spec.

Implicit Types (item : GraphDriveItem.t) (items : list GraphDriveItem.t).

Lemma mapToSharedImage_clock (now now' : string) item :
  is_Some (timestamp item) ->
  mapToSharedImage now item = mapToSharedImage now' item.
Proof.
  intros [t Ht]. destruct (rejected item) eqn:Hr.
  - by rewrite !mapToSharedImage_rejected.
  - destruct (mapToSharedImage_value now item Hr) as (f & u & Hf & Hu & ->).
    destruct (mapToSharedImage_value now' item Hr) as (f' & u' & Hf' & Hu' & ->).
    rewrite Hf in Hf'. rewrite Hu in Hu'.
    injection Hf' as <-. injection Hu' as <-.
    unfold imageOf. by rewrite Ht.
Qed.

Lemma mapItems_clock (clock clock' : nat -> string) items :
  (forall item, In item items -> is_Some (timestamp item)) ->
  forall (i i' : nat) (sharedImages : list SharedImage.t)
         (errors : list string),
    mapItems clock i items sharedImages errors
    = mapItems clock' i' items sharedImages errors.
Proof.
  induction items as [|item items IH]; intros Hts i i' acc errs; [done|].
  simpl. rewrite (mapToSharedImage_clock (clock i) (clock' i') item)
    by (apply Hts; by left).
  assert (forall it, In it items -> is_Some (timestamp it)) as Hts'
    by (intros it Hit; apply Hts; by right).
  destruct (mapToSharedImage (clock' i') item) as [[mapped|]|e]; [| |done].
  - apply (IH Hts').
  - apply (IH Hts').
Qed.

(** X2. The time enters the result of the pipeline only as the share date
    of images whose item has no (or an empty) share timestamp. A mapped
    image is dated with the item's timestamp when it has a non-empty one,
    and with the time of the call otherwise; whether an item is mapped
    does not depend on the time; and when every image item has a timestamp,
    [processGraphItems] returns the same result whatever the clock. *)
Theorem pipeline_clock (localeCompare : string -> string -> Z)
    (clock clock' : nat -> string) items :
  (forall item now img,
     mapToSharedImage now item = Js.Normal (Some img) ->
     SharedImage.dateShared img = default now (timestamp item)) /\
  (forall item now now',
     mapToSharedImage now item = Js.Normal None <->
     mapToSharedImage now' item = Js.Normal None) /\
  ((forall item, In item items -> isImageItem item = true ->
      is_Some (timestamp item)) ->
   processGraphItems localeCompare clock items
   = processGraphItems localeCompare clock' items).
Proof.
  split; [|split].
  - by intros item now img (_ & f & u & _ & _ & ->)%mapToSharedImage_Some.
  - intros item now now'.
    destruct (mapToSharedImage_cases now item) as [[Hr ->]|[Hr [img ->]]];
      destruct (mapToSharedImage_cases now' item) as [[Hr' ->]|[Hr' [img' ->]]];
      try done; congruence.
  - intros Hts. unfold processGraphItems.
    assert (forall item, In item (filterImagesByMime items) ->
              is_Some (timestamp item)) as Hts'
      by (intros item [Hin His]%filter_In; by apply Hts).
    by rewrite (mapItems_clock clock clock' (filterImagesByMime items)
                  Hts' 0 0 [] []).
Qed.

Lemma pipeline_clock_witness :
  processGraphItems Samples.codeCompare Samples.clock Data.mockItems
  = processGraphItems Samples.codeCompare (fun i => pretty i) Data.mockItems.
Proof.
  apply (pipeline_clock Samples.codeCompare Samples.clock (fun i => pretty i)
           Data.mockItems).
  intros item Hin _.
  repeat (destruct Hin as [<-|Hin]; [by eexists|]). destruct Hin.
Defined.

End Clock.

(** ** Where the fields of an image come from *)

Section Provenance.

Import Grouping Spec.

Variable localeCompare : string -> string -> Z.
Variable clock : nat -> string.

Implicit Types (item : GraphDriveItem.t) (items : list GraphDriveItem.t).

(** The images of the groupings are images of the mapping loop. *)
Lemma pipeline_image_mappedFrom items (g : PeopleGrouping.t)
    (img : SharedImage.t) :
  In g (ProcessResult.groupings (processGraphItems localeCompare clock items)) ->
  In img (PeopleGrouping.images g) ->
  mappedFrom (filterImagesByMime items) img.
Proof.
  intros Hg Himg.
  destruct (processGraphItems_images localeCompare clock items)
    as (mapped & Hperm & _ & _ & Hfrom).
  rewrite Forall_forall in Hfrom. apply Hfrom.
  rewrite <- Hperm. apply list_elem_of_In.
  apply in_concat. exists (PeopleGrouping.images g).
  split; [by apply in_map | done].
Qed.

(** X3. Every image in the groupings that [processGraphItems] returns
    carries the id, the name and the web url of a raw item of the input,
    and the sharer of that item: its display name as it is in the item -
    the disambiguation rewrites the names of the people, never the
    [sharedBy] of an image - and as identifier the sharer's e-mail address
    or, without one, the sharer's id. Name, display name and identifier are
    non-empty. *)
Theorem pipeline_image_provenance items (g : PeopleGrouping.t)
    (img : SharedImage.t) :
  In g (ProcessResult.groupings (processGraphItems localeCompare clock items)) ->
  In img (PeopleGrouping.images g) ->
  exists item u,
    In item items /\
    Models.sharedBy_user item = Some u /\
    SharedImage.id img = GraphDriveItem.id item /\
    SharedImage.name img = GraphDriveItem.name item /\
    SharedImage.webUrl img = GraphDriveItem.webUrl item /\
    Sharer.displayName (SharedImage.sharedBy img) = GraphUser.displayName u /\
    Sharer.identifier (SharedImage.sharedBy img) = sharer_identifier u /\
    SharedImage.name img <> "" /\
    Sharer.displayName (SharedImage.sharedBy img) <> "" /\
    Sharer.identifier (SharedImage.sharedBy img) <> "".
Proof.
  intros Hg Himg.
  destruct (pipeline_image_mappedFrom items g img Hg Himg)
    as (item & now & [Hin His]%filter_In & Hmap).
  apply mapToSharedImage_Some in Hmap as (Hr & f & u & Hf & Hu & ->).
  exists item, u. simpl.
  apply (rejected_false_iff item His) in Hr as [Hname Hsharer].
  pose proof Hsharer as (u' & Hu' & Hdisplay & _).
  rewrite Hu in Hu'. injection Hu' as <-.
  repeat (split; [done|]).
  apply (sharer_identifier_nonempty item); [|done].
  by apply hasValidSharer_true.
Qed.

End Provenance.

Section ProvenanceSample.

Import Grouping Spec.

Lemma pipeline_image_provenance_witness :
  exists g img item,
    In g (ProcessResult.groupings
            (processGraphItems Samples.codeCompare Samples.clock
               [Samples.rawItem "1" "a.jpg" "image/jpeg" "Sam" "s1" None;
                Samples.rawItem "2" "b.jpg" "image/jpeg" "Sam" "s2" None])) /\
    In img (PeopleGrouping.images g) /\
    nameOf g = "Sam (s1)" /\
    Sharer.displayName (SharedImage.sharedBy img) = "Sam" /\
    SharedImage.id img = GraphDriveItem.id item.
Proof.
  set (items := [Samples.rawItem "1" "a.jpg" "image/jpeg" "Sam" "s1" None;
                 Samples.rawItem "2" "b.jpg" "image/jpeg" "Sam" "s2" None]).
  set (g := List.hd (Samples.grouping "" "" [])
              (ProcessResult.groupings
                 (processGraphItems Samples.codeCompare Samples.clock items))).
  set (img := List.hd Samples.photo1 (PeopleGrouping.images g)).
  assert (In g (ProcessResult.groupings
                  (processGraphItems Samples.codeCompare Samples.clock items)))
    as Hg by (left; reflexivity).
  assert (In img (PeopleGrouping.images g)) as Himg by (left; reflexivity).
  destruct (pipeline_image_provenance Samples.codeCompare Samples.clock
              items g img Hg Himg) as (item & u & _ & _ & Hid & _).
  exists g, img, item.
  split; [exact Hg|]. split; [exact Himg|]. split; [reflexivity|].
  split; [reflexivity | exact Hid].
Defined.

End ProvenanceSample.

(** ** Thumbnail urls *)

Section ThumbnailUrl.

Import Grouping Spec.

Implicit Types (item : GraphDriveItem.t) (size : Data.Size).

Lemma or_else_cases (a b : option string) :
  (Js.truthy_opt a = true /\ Data.or_else a b = a) \/
  (Js.truthy_opt a = false /\ Data.or_else a b = b).
Proof. unfold Data.or_else. destruct (Js.truthy_opt a); auto. Qed.

(** [getThumbnailUrl] on an item with a first thumbnail set. *)
Lemma getThumbnailUrl_first item size (th : GraphThumbnail.t)
    (rest : list GraphThumbnail.t) :
  GraphDriveItem.thumbnails item = Some (th :: rest) ->
  Data.getThumbnailUrl item size
  = if Js.truthy_opt (sizeUrl size th) then sizeUrl size th
    else if Js.truthy_opt (sizeUrl Data.large th) then sizeUrl Data.large th
    else if Js.truthy_opt (sizeUrl Data.medium th) then sizeUrl Data.medium th
    else if Js.truthy_opt (sizeUrl Data.small th) then sizeUrl Data.small th
    else None.
Proof.
  intros Hth. unfold Data.getThumbnailUrl, sizeUrl, Data.or_else.
  rewrite Hth.
  destruct size;
    destruct (Js.truthy_opt (Data.url (GraphThumbnail.small th))) eqn:Hs;
    destruct (Js.truthy_opt (Data.url (GraphThumbnail.medium th))) eqn:Hm;
    destruct (Js.truthy_opt (Data.url (GraphThumbnail.large th))) eqn:Hl;
    cbv zeta;
    repeat first [rewrite Hs | rewrite Hm | rewrite Hl | progress simpl];
    reflexivity.
Qed.

Lemma getThumbnailUrl_none item size :
  (GraphDriveItem.thumbnails item = None \/
   GraphDriveItem.thumbnails item = Some []) ->
  Data.getThumbnailUrl item size = None.
Proof. unfold Data.getThumbnailUrl. by intros [-> | ->]. Qed.

Lemma truthy_opt_Some (o : option string) (u : string) :
  Js.truthy_opt o = true -> o = Some u -> u <> "".
Proof. intros Ht ->. by apply truthy_true. Qed.

(** X4. [getThumbnailUrl] returns [null] or a non-empty url of the item's
    first thumbnail set. It returns the url of the requested size when that
    one is non-empty, and otherwise the first non-empty one of large,
    medium, small; it returns [null] exactly when the item has no thumbnail
    set or the first set has no non-empty url. Later thumbnail sets are
    never looked at. *)
Theorem getThumbnailUrl_contract item size :
  (forall u, Data.getThumbnailUrl item size = Some u ->
     u <> "" /\
     exists th rest,
       GraphDriveItem.thumbnails item = Some (th :: rest) /\
       (sizeUrl Data.small th = Some u \/ sizeUrl Data.medium th = Some u \/
        sizeUrl Data.large th = Some u)) /\
  (forall th rest,
     GraphDriveItem.thumbnails item = Some (th :: rest) ->
     (Js.truthy_opt (sizeUrl size th) = true ->
      Data.getThumbnailUrl item size = sizeUrl size th) /\
     (Js.truthy_opt (sizeUrl size th) = false ->
      Data.getThumbnailUrl item size
      = if Js.truthy_opt (sizeUrl Data.large th) then sizeUrl Data.large th
        else if Js.truthy_opt (sizeUrl Data.medium th)
             then sizeUrl Data.medium th
        else if Js.truthy_opt (sizeUrl Data.small th)
             then sizeUrl Data.small th
        else None)) /\
  (Data.getThumbnailUrl item size = None <->
   forall th rest,
     GraphDriveItem.thumbnails item = Some (th :: rest) ->
     Js.truthy_opt (sizeUrl Data.small th) = false /\
     Js.truthy_opt (sizeUrl Data.medium th) = false /\
     Js.truthy_opt (sizeUrl Data.large th) = false).
Proof.
  destruct (GraphDriveItem.thumbnails item) as [[|th rest]|] eqn:Hth.
  1, 3: rewrite getThumbnailUrl_none by auto;
        (split; [done|]; split; [done|]; split; done).
  rewrite (getThumbnailUrl_first item size th rest Hth).
  assert (Js.truthy_opt (sizeUrl size th) = true ->
          Js.truthy_opt (sizeUrl Data.small th) = true \/
          Js.truthy_opt (sizeUrl Data.medium th) = true \/
          Js.truthy_opt (sizeUrl Data.large th) = true) as Hsize
    by (destruct size; auto).
  split; [|split].
  - intros u Hu.
    assert (exists o, (o = sizeUrl Data.small th \/ o = sizeUrl Data.medium th \/
                       o = sizeUrl Data.large th) /\
                      Js.truthy_opt o = true /\ o = Some u)
      as (o & Ho & Ht & Hou).
    { destruct (Js.truthy_opt (sizeUrl size th)) eqn:H0.
      { exists (sizeUrl size th). split; [destruct size; auto | done]. }
      destruct (Js.truthy_opt (sizeUrl Data.large th)) eqn:H1.
      { exists (sizeUrl Data.large th). auto. }
      destruct (Js.truthy_opt (sizeUrl Data.medium th)) eqn:H2.
      { exists (sizeUrl Data.medium th). auto. }
      destruct (Js.truthy_opt (sizeUrl Data.small th)) eqn:H3; [|done].
      exists (sizeUrl Data.small th). auto. }
    split; [by eapply truthy_opt_Some|]. exists th, rest. split; [done|].
    destruct Ho as [-> | [-> | ->]]; auto.
  - intros th' rest' [= <- <-]. split; by intros ->.
  - split.
    + intros Hnone th' rest' [= <- <-].
      destruct (Js.truthy_opt (sizeUrl size th)) eqn:H0.
      { rewrite Hnone in H0. done. }
      destruct (Js.truthy_opt (sizeUrl Data.large th)) eqn:H1.
      { rewrite Hnone in H1. done. }
      destruct (Js.truthy_opt (sizeUrl Data.medium th)) eqn:H2.
      { rewrite Hnone in H2. done. }
      destruct (Js.truthy_opt (sizeUrl Data.small th)) eqn:H3; [|done].
      rewrite Hnone in H3. done.
    + intros Hall. destruct (Hall th rest eq_refl) as (Hs & Hm & Hl).
      destruct (Js.truthy_opt (sizeUrl size th)) eqn:H0.
      { destruct (Hsize eq_refl) as [H|[H|H]]; congruence. }
      by rewrite Hl, Hm, Hs.
Qed.

Lemma getThumbnailUrl_contract_witness :
  Data.getThumbnailUrl
    (List.hd Samples.beach Data.mockItems) Data.large
  = Some "https://picsum.photos/300/200?random=1".
Proof.
  destruct (getThumbnailUrl_contract
              (List.hd Samples.beach Data.mockItems) Data.large)
    as (_ & Hsize & _).
  destruct (Hsize _ _ eq_refl) as [_ Hfallback].
  rewrite Hfallback; reflexivity.
Defined.

(** X5. The mapping and [getThumbnailUrl] agree on the thumbnail of an item
    that has a non-empty medium url in its first thumbnail set: the
    thumbnail of the mapped image is what [getThumbnailUrl(item)] returns.
    When the mapped image has no thumbnail, [getThumbnailUrl(item)] returns
    the large or else the small url of the first set, if one is non-empty:
    the mapping does not fall back to another size. *)
Theorem mapped_thumbnail_getThumbnailUrl (now : string) item
    (img : SharedImage.t) :
  mapToSharedImage now item = Js.Normal (Some img) ->
  (forall u, Preview.thumbnailUrl (SharedImage.preview img) = Some u ->
     Data.getThumbnailUrl_default item = Some u) /\
  (Preview.thumbnailUrl (SharedImage.preview img) = None ->
   Data.getThumbnailUrl_default item = Data.getThumbnailUrl item Data.large /\
   forall th rest,
     GraphDriveItem.thumbnails item = Some (th :: rest) ->
     Js.truthy_opt (sizeUrl Data.medium th) = false).
Proof.
  intros (_ & f & u & _ & _ & ->)%mapToSharedImage_Some. simpl.
  rewrite hasValidPreview_firstMediumUrl.
  unfold Data.getThumbnailUrl_default.
  destruct (GraphDriveItem.thumbnails item) as [[|th rest]|] eqn:Hth.
  1, 3: unfold firstMediumUrl; rewrite Hth; simpl;
        rewrite !getThumbnailUrl_none by auto; done.
  assert (firstMediumUrl item = sizeUrl Data.medium th) as ->
    by (unfold firstMediumUrl; by rewrite Hth).
  rewrite !(getThumbnailUrl_first item _ th rest Hth).
  destruct (Js.truthy_opt (sizeUrl Data.medium th)) eqn:Hm.
  - split; [by intros u' <- | intros Hnone].
    rewrite Hnone in Hm. done.
  - split; [done|]. intros _. split; [|by intros ? ? [= <- <-]].
    by destruct (Js.truthy_opt (sizeUrl Data.large th)).
Qed.

Lemma mapped_thumbnail_getThumbnailUrl_witness :
  exists img,
    mapToSharedImage "2025-09-16T08:00:00.000Z"
      (List.hd Samples.beach Data.mockItems) = Js.Normal (Some img) /\
    Data.getThumbnailUrl_default (List.hd Samples.beach Data.mockItems)
      = Preview.thumbnailUrl (SharedImage.preview img).
Proof.
  eexists. split; [reflexivity|].
  destruct (mapped_thumbnail_getThumbnailUrl "2025-09-16T08:00:00.000Z"
              (List.hd Samples.beach Data.mockItems) _ eq_refl) as [Hsome _].
  by rewrite (Hsome _ eq_refl).
Defined.

End ThumbnailUrl.

(** ** The people of the pipeline *)

Section People.

Import Grouping Spec.

Variable localeCompare : string -> string -> Z.
Variable clock : nat -> string.

Implicit Types (items : list GraphDriveItem.t) (g : PeopleGrouping.t).

Lemma totalImages_from (people : list Person.t) (sum : nat) :
  fold_left (fun sum person => sum + Person.imageCount person) people sum
  = sum + PeoplePanel.totalImages people.
Proof.
  unfold PeoplePanel.totalImages. revert sum.
  induction people as [|person people IH]; intros sum; simpl; [lia|].
  rewrite (IH (sum + _)), (IH (Person.imageCount person)). lia.
Qed.

Lemma totalImages_cons (person : Person.t) (people : list Person.t) :
  PeoplePanel.totalImages (person :: people)
  = Person.imageCount person + PeoplePanel.totalImages people.
Proof. unfold PeoplePanel.totalImages at 1. simpl. apply totalImages_from. Qed.

(** The counts of groupings that count their images add up to the number
    of images. *)
Lemma totalImages_flatten (groupings : list PeopleGrouping.t) :
  (forall g, In g groupings ->
     Person.imageCount (PeopleGrouping.person g)
       = length (PeopleGrouping.images g)) ->
  PeoplePanel.totalImages (List.map PeopleGrouping.person groupings)
  = length (flatten groupings).
Proof.
  unfold flatten.
  induction groupings as [|g groupings IH]; intros Hcount; [done|].
  simpl. rewrite totalImages_cons, length_app, IH, (Hcount g); [done| |].
  - by left.
  - intros g' Hg'. apply Hcount. by right.
Qed.

(** Each grouping of the pipeline counts its images, and has one. *)
Lemma processGraphItems_counts items g :
  In g (ProcessResult.groupings (processGraphItems localeCompare clock items)) ->
  Person.imageCount (PeopleGrouping.person g)
    = length (PeopleGrouping.images g) /\
  exists first rest, PeopleGrouping.images g = first :: rest.
Proof.
  destruct (processGraphItems_result localeCompare clock items)
    as (mapped & made & -> & _ & _ & _ & Hmade & _).
  simpl. rewrite disambiguateDisplayNames_relabel.
  intros (g0 & <- & Hg0)%in_map_iff.
  apply list_elem_of_In in Hg0.
  rewrite (sort_perm (byDisplayName localeCompare) made) in Hg0.
  apply list_elem_of_In in Hg0.
  destruct (Hmade g0 Hg0) as (_ & Himgs & Hcount & first & rest & Hfirst & _).
  simpl in *.
  assert (PeopleGrouping.images (relabel
            (sort (byDisplayName localeCompare) made) g0)
          = PeopleGrouping.images g0) as ->
    by (unfold relabel; by destruct (_ <? _)).
  assert (Person.imageCount (PeopleGrouping.person (relabel
            (sort (byDisplayName localeCompare) made) g0))
          = Person.imageCount (PeopleGrouping.person g0)) as ->
    by (unfold relabel; by destruct (_ <? _)).
  rewrite Himgs. split; [done | eauto].
Qed.

Lemma pipeline_people_facts items :
  let result := processGraphItems localeCompare clock items in
  ProcessResult.allPeople result
    = List.map PeopleGrouping.person (ProcessResult.groupings result) /\
  NoDup (List.map Person.identifier (ProcessResult.allPeople result)) /\
  (forall g, In g (ProcessResult.groupings result) ->
     identifierOf g <> "" /\
     Person.imageCount (PeopleGrouping.person g)
       = length (PeopleGrouping.images g) /\
     1 <= Person.imageCount (PeopleGrouping.person g)) /\
  PeoplePanel.totalImages (ProcessResult.allPeople result)
    = ProcessResult.totalImages result /\
  ProcessResult.totalImages result
    = length (flatten (ProcessResult.groupings result)).
Proof.
  intros result. subst result.
  destruct (processGraphItems_keyed localeCompare clock items)
    as [[Hnd Hkey] Hpeople].
  assert (ProcessResult.totalImages
            (processGraphItems localeCompare clock items)
          = length (flatten (ProcessResult.groupings
                      (processGraphItems localeCompare clock items))))
    as Htotal.
  { destruct (processGraphItems_images localeCompare clock items)
      as (mapped & Hperm & -> & _).
    unfold flatten. by rewrite Hperm. }
  split; [done|]. split; [|split; [|split; [|done]]].
  - rewrite Hpeople, List.map_map. exact Hnd.
  - intros g Hg.
    destruct (processGraphItems_counts items g Hg)
      as (Hcount & first & rest & Hfirst).
    split; [|split; [done|]].
    + assert (In first (PeopleGrouping.images g)) as Hin
        by (rewrite Hfirst; by left).
      rewrite <- (Hkey g first Hg Hin).
      destruct (pipeline_image_mappedFrom localeCompare clock items g first
                  Hg Hin) as (item & now & _ & Hmap).
      apply mapToSharedImage_Some in Hmap as (Hr & f & u & _ & Hu & ->).
      simpl. apply (sharer_identifier_nonempty item); [|done].
      unfold rejected in Hr.
      apply orb_false_iff in Hr as [_ Hs]. by apply negb_false_iff in Hs.
    + rewrite Hcount, Hfirst. simpl. lia.
  - rewrite Hpeople, Htotal. apply totalImages_flatten.
    intros g Hg. by destruct (processGraphItems_counts items g Hg).
Qed.

(** X6. The people that [processGraphItems] returns are the persons of its
    groupings, in the same order. Their identifiers are pairwise distinct
    and non-empty; each person's [imageCount] is the number of images of
    the person's grouping and is at least 1; and the image counts add up
    (as the people panel adds them for "Show All") to [totalImages], which
    is the number of images in the groupings. *)
Theorem pipeline_people items :
  let result := processGraphItems localeCompare clock items in
  ProcessResult.allPeople result
    = List.map PeopleGrouping.person (ProcessResult.groupings result) /\
  NoDup (List.map Person.identifier (ProcessResult.allPeople result)) /\
  (forall g, In g (ProcessResult.groupings result) ->
     identifierOf g <> "" /\
     Person.imageCount (PeopleGrouping.person g)
       = length (PeopleGrouping.images g) /\
     1 <= Person.imageCount (PeopleGrouping.person g)) /\
  PeoplePanel.totalImages (ProcessResult.allPeople result)
    = ProcessResult.totalImages result /\
  ProcessResult.totalImages result
    = length (flatten (ProcessResult.groupings result)).
Proof. apply pipeline_people_facts. Qed.

End People.

Section PeopleSample.

Import Grouping Spec.

Lemma pipeline_people_witness :
  List.map Person.imageCount
    (ProcessResult.allPeople
       (processGraphItems Samples.codeCompare Samples.clock Data.mockItems))
  = [3; 2; 1] /\
  PeoplePanel.totalImages
    (ProcessResult.allPeople
       (processGraphItems Samples.codeCompare Samples.clock Data.mockItems))
  = ProcessResult.totalImages
      (processGraphItems Samples.codeCompare Samples.clock Data.mockItems).
Proof.
  split; [reflexivity|].
  apply (pipeline_people Samples.codeCompare Samples.clock Data.mockItems).
Defined.

End PeopleSample.

(** ** Runs of the selection state engine *)

Section Runs.

Import Selection Spec.

Variable localeCompare : string -> string -> Z.

Implicit Types (state : SelectionState.t) (events : list Event) (event : Event).

Lemma run_snoc state events event :
  run localeCompare state (events ++ [event])
  = dispatchAll (run localeCompare state events) (react localeCompare event).
Proof. by rewrite run_app. Qed.

Lemma react_selectedPerson state event :
  SelectionState.selectedPerson
    (dispatchAll state (react localeCompare event))
  = match event with
    | SelectPersonCalled person => person
    | _ => SelectionState.selectedPerson state
    end.
Proof.
  destruct event as [| |person|request clock outcome]; try done.
  destruct outcome as [result| |]; simpl; try done.
  by destruct (Js.truthy_opt (FetchResult.error result)).
Qed.

Lemma react_isLoading state event :
  SelectionState.isLoading (dispatchAll state (react localeCompare event))
  = match event with
    | LoadDataCalled => true
    | RefreshDataCalled => true
    | FetchSettled _ _ _ => false
    | SelectPersonCalled _ => SelectionState.isLoading state
    end.
Proof.
  destruct event as [| |person|request clock outcome]; try done.
  destruct outcome as [result| |]; simpl; try done.
  by destruct (Js.truthy_opt (FetchResult.error result)).
Qed.

(** X7. Loads, refreshes and their results never change the selection: after
    any sequence of events the selected person is the argument of the last
    [selectPerson] call - the very [Person] value that was passed, also
    when later data has this person with another name or count, or not at
    all - and it is the selection from before when there was no such call. *)
Theorem selection_changes_only_by_selectPerson state events :
  SelectionState.selectedPerson (run localeCompare state events)
  = lastSelection events (SelectionState.selectedPerson state).
Proof.
  induction events as [|event events IH] using rev_ind; [done|].
  rewrite run_snoc, react_selectedPerson, IH.
  unfold lastSelection. rewrite fold_left_app. simpl.
  by destruct event.
Qed.

(** X8. [isLoading] follows the last load-related event only: after any
    sequence of events it is [true] exactly when the most recent event
    other than a [selectPerson] call is a call of [loadData] or
    [refreshData]. A settled fetch sets it to [false] whether or not other
    requests are still in flight. *)
Theorem isLoading_follows_last_event state events :
  SelectionState.isLoading (run localeCompare state events)
  = lastIsCall events (SelectionState.isLoading state).
Proof.
  induction events as [|event events IH] using rev_ind; [done|].
  rewrite run_snoc, react_isLoading, IH.
  unfold lastIsCall. rewrite fold_left_app. simpl.
  by destruct event.
Qed.

End Runs.

Section Showable.

Import Selection Spec.

Variable localeCompare : string -> string -> Z.

Implicit Types (state : SelectionState.t) (events : list Event) (event : Event).

(** The images that a load hands to the reducer have an [image/] MIME
    type. *)
Lemma flatten_mimeType (clock : nat -> string)
    (items : list GraphDriveItem.t) (img : SharedImage.t) :
  In img (flatten (ProcessResult.groupings
            (Grouping.processGraphItems localeCompare clock items))) ->
  Js.startsWith (SharedImage.mimeType img) "image/" = true.
Proof.
  intros (imgs & (g & <- & Hg)%in_map_iff & Himg)%in_concat.
  destruct (pipeline_image_mappedFrom localeCompare clock items g img Hg Himg)
    as (item & now & [_ His]%filter_In & Hmap).
  apply mapToSharedImage_Some in Hmap as (_ & f & u & Hf & _ & ->). simpl.
  apply isImageItem_file in His as (f' & Hf' & His & _).
  rewrite Hf in Hf'. by injection Hf' as <-.
Qed.

Lemma showable_step state event :
  showable state -> showable (dispatchAll state (react localeCompare event)).
Proof.
  unfold showable. intros Hs.
  destruct event as [| |person|request clock outcome]; simpl; try done.
  - destruct person; simpl; constructor.
  - destruct outcome as [result|message|]; simpl; [|exact Hs..].
    destruct (Js.truthy_opt (FetchResult.error result)); [exact Hs|].
    simpl. apply Forall_forall. intros img Himg%list_elem_of_In.
    destruct (SelectionState.selectedPerson state) as [selected|] eqn:Hsel.
    + apply filter_In in Himg as [Himg Hshared].
      split; [by eapply flatten_mimeType|].
      intros person [= <-]. by apply String.eqb_eq.
    + split; [by eapply flatten_mimeType | done].
Qed.

(** X9. What the gallery is given is always showable: in every state that
    the engine reaches from its initial state, by any sequence of calls and
    settled fetches, each image of [displayImages] has a MIME type that
    starts with [image/], and when a person is selected each image of
    [displayImages] was shared by the selected person (has that person's
    identifier). *)
Theorem displayImages_showable events :
  showable (run localeCompare initialState events) /\
  forall state, showable state -> showable (run localeCompare state events).
Proof.
  assert (forall state, showable state ->
            showable (run localeCompare state events)) as Hrun.
  { induction events as [|event events IH] using rev_ind; [done|].
    intros state Hs. rewrite run_snoc. by apply showable_step, IH. }
  split; [|exact Hrun]. apply Hrun. constructor.
Qed.

End Showable.

Section ShowableSample.

Import Selection Spec.

Lemma displayImages_showable_witness :
  showable
    (run Samples.codeCompare Samples.loaded
       [SelectPersonCalled (Some Samples.alice); RefreshDataCalled;
        FetchSettled 1 Samples.clock (Samples.fetched Data.mockItems)]) /\
  length
    (SelectionState.displayImages
       (run Samples.codeCompare Samples.loaded
          [SelectPersonCalled (Some Samples.alice); RefreshDataCalled;
           FetchSettled 1 Samples.clock (Samples.fetched Data.mockItems)]))
  = 3.
Proof.
  split; [|reflexivity].
  exact (proj1 (displayImages_showable Samples.codeCompare
           ([LoadDataCalled;
             FetchSettled 0 Samples.clock
               (Samples.fetched [Samples.beach; Samples.party; Samples.hiking])]
            ++ [SelectPersonCalled (Some Samples.alice); RefreshDataCalled;
                FetchSettled 1 Samples.clock
                  (Samples.fetched Data.mockItems)]))).
Defined.

End ShowableSample.

Section Panel.

Import Selection Spec.

Variable localeCompare : string -> string -> Z.

Implicit Types (state : SelectionState.t).

(** X10. After a load or refresh has settled with a result, the counts of
    the people panel match the gallery. With nobody selected, the "Show
    All" count - the sum of the people's image counts - is the number of
    images displayed. With a person selected, the image count of the
    person with that identifier in the new people list is the number of
    images displayed. The gallery makes one item per displayed image, in
    order. *)
Theorem panel_counts_match_gallery state (request : nat)
    (clock : nat -> string) (result : FetchResult.t) :
  Js.truthy_opt (FetchResult.error result) = false ->
  let state' :=
    run localeCompare state [FetchSettled request clock (Resolved result)] in
  (SelectionState.selectedPerson state = None ->
   PeoplePanel.totalImages (SelectionState.availablePeople state')
   = length (SelectionState.displayImages state')) /\
  (forall selected person,
     SelectionState.selectedPerson state = Some selected ->
     In person (SelectionState.availablePeople state') ->
     Person.identifier person = Person.identifier selected ->
     Person.imageCount person
     = length (SelectionState.displayImages state')) /\
  List.map GalleryItem.image
    (Gallery.galleryItems (SelectionState.displayImages state'))
  = SelectionState.displayImages state'.
Proof.
  intros Hf state'. subst state'.
  rewrite (fetch_settled_state localeCompare state request clock result Hf).
  cbn [SelectionState.displayImages SelectionState.availablePeople].
  set (processed :=
         Grouping.processGraphItems localeCompare clock
           (FetchResult.items result)).
  destruct (pipeline_people_facts localeCompare clock (FetchResult.items result))
    as (Hpeople & _ & _ & Htotal & Hlen).
  fold processed in Hpeople, Htotal, Hlen.
  destruct (processGraphItems_keyed localeCompare clock
              (FetchResult.items result)) as [Hkeyed _].
  fold processed in Hkeyed.
  split; [|split].
  - intros ->. simpl. by rewrite Htotal, Hlen.
  - intros selected person -> Hin Hid. simpl.
    rewrite Hpeople in Hin. apply in_map_iff in Hin as (g & <- & Hg).
    rewrite <- Hid.
    change (Person.identifier (PeopleGrouping.person g)) with (identifierOf g).
    rewrite (filter_flatten_present _ g Hkeyed Hg).
    by destruct (processGraphItems_counts localeCompare clock
                   (FetchResult.items result) g Hg).
  - unfold Gallery.galleryItems. rewrite List.map_map. apply List.map_id.
Qed.

(** X11. A click on a person in the people panel toggles the selection:
    it selects the person when nobody or a person with another identifier
    is selected, and it clears the selection ("show all") when the
    selected person has the clicked person's identifier - whatever their
    names and counts. So from "show all", two clicks on one person lead
    back to "show all". A click on "Show All" clears the selection. *)
Theorem person_click_toggles state (person : Person.t) :
  let state' := run localeCompare state [Page.personClicked state person] in
  (SelectionState.selectedPerson state = None ->
   SelectionState.selectedPerson state' = Some person /\
   SelectionState.selectedPerson
     (run localeCompare state' [Page.personClicked state' person]) = None) /\
  (forall selected,
     SelectionState.selectedPerson state = Some selected ->
     (Person.identifier selected = Person.identifier person ->
      SelectionState.selectedPerson state' = None) /\
     (Person.identifier selected <> Person.identifier person ->
      SelectionState.selectedPerson state' = Some person)) /\
  SelectionState.selectedPerson
    (run localeCompare state [Page.showAllClicked]) = None /\
  SelectionState.availablePeople state'
    = SelectionState.availablePeople state.
Proof.
  intros state'. subst state'.
  unfold Page.personClicked, PeoplePanel.handlePersonClick.
  split; [|split; [|done]].
  - intros ->. split; [done|]. simpl. by rewrite String.eqb_refl.
  - intros selected ->. split.
    + intros ->. by rewrite String.eqb_refl.
    + intros Hne%String.eqb_neq. by rewrite Hne.
Qed.

End Panel.

Section PanelSample.

Import Selection Spec.

Lemma panel_counts_match_gallery_witness :
  let state' :=
    run Samples.codeCompare initialState
      [FetchSettled 0 Samples.clock
         (Resolved {| FetchResult.items := Data.mockItems;
                      FetchResult.error := None |})] in
  PeoplePanel.totalImages (SelectionState.availablePeople state') = 6 /\
  length (SelectionState.displayImages state') = 6.
Proof.
  intros state'.
  destruct (panel_counts_match_gallery Samples.codeCompare initialState 0
              Samples.clock
              {| FetchResult.items := Data.mockItems;
                 FetchResult.error := None |} eq_refl) as (Htotal & _).
  split; [|reflexivity]. fold state' in Htotal. rewrite (Htotal eq_refl).
  reflexivity.
Defined.

Lemma person_click_toggles_witness :
  SelectionState.selectedPerson
    (run Samples.codeCompare Samples.loaded
       [Page.personClicked Samples.loaded Samples.alice])
  = Some Samples.alice.
Proof.
  apply (person_click_toggles Samples.codeCompare Samples.loaded Samples.alice).
  reflexivity.
Defined.

End PanelSample.

(** ** Fetching the shared items *)

Section Fetch.

Import Selection Spec.

Implicit Types (env : Data.Env.t) (e : Js.thrown).

Lemma caught_result e :
  FetchResult.items (Data.caught e) = [] /\
  exists message,
    FetchResult.error (Data.caught e) = Some message /\
    (message = "" -> emptyMessage e).
Proof.
  unfold Data.caught, emptyMessage.
  destruct e as [message|message|]; simpl.
  - destruct (Js.includes message "fetch"); simpl;
      (split; [done|]); eexists; (split; [done|]); [done|].
    intros ->. by left.
  - split; [done|]. eexists. split; [done|]. intros ->. by right.
  - split; [done|]. eexists. split; [done|]. done.
Qed.

Lemma append_nonempty (s t : string) : s <> "" -> s +:+ t <> "".
Proof. by destruct s. Qed.

Lemma readResponse_result (response : Response.t) :
  (FetchResult.error (Data.readResponse response) = None /\
   Response.ok response = true /\
   exists data,
     Response.json response = Js.Fulfilled (Some data) /\
     FetchResult.items (Data.readResponse response)
       = default [] (GraphBody.value data)) \/
  (FetchResult.items (Data.readResponse response) = [] /\
   exists message,
     FetchResult.error (Data.readResponse response) = Some message /\
     (message = "" ->
      exists e, emptyMessage e /\ Response.json response = Js.Rejected e)).
Proof.
  unfold Data.readResponse.
  destruct (Response.ok response); simpl.
  - destruct (Response.json response) as [[data|]|e] eqn:Hjson.
    + left. split; [done|]. split; [done|]. by exists data.
    + right. split; [done|]. eexists. split; [done|]. done.
    + right. destruct (caught_result e) as (Hitems & message & Herr & Hempty).
      split; [done|]. exists message. split; [done|]. eauto.
  - right. split; [done|]. eexists. split; [done|].
    intros H. by apply append_nonempty in H.
Qed.

Lemma fetchSharedItems_cases env :
  let result := (Data.fetchSharedItems env).1 in
  (FetchResult.error result <> None -> FetchResult.items result = []) /\
  (FetchResult.error result = None ->
   result = Data.getMockSharedItems \/ readFrom env result) /\
  (FetchResult.error result = Some "" ->
   exists e, emptyMessage e /\ rejectedWith env e).
Proof.
  intros result. subst result.
  set (P := fun result : FetchResult.t =>
    (FetchResult.error result <> None -> FetchResult.items result = []) /\
    (FetchResult.error result = None ->
     result = Data.getMockSharedItems \/ readFrom env result) /\
    (FetchResult.error result = Some "" ->
     exists e, emptyMessage e /\ rejectedWith env e)).
  change (P (Data.fetchSharedItems env).1).
  assert (forall n tok response,
    Data.Env.makeGraphRequest env n tok = Js.Fulfilled response ->
    P (Data.readResponse response)) as Hread.
  { intros n tok response Hreq. unfold P, readFrom, rejectedWith.
    destruct (readResponse_result response)
      as [(Herr & Hok & data & Hjson & Hitems)
         |(Hitems & message & Herr & Hempty)].
    - split; [by rewrite Herr|]. split; [|by rewrite Herr].
      intros _. right. by exists n, tok, response, data.
    - split; [done|]. split; [by rewrite Herr|].
      rewrite Herr. intros [= ->].
      destruct (Hempty eq_refl) as (e & He & Hjson).
      exists e. split; [done|]. exists n, tok. right. eauto. }
  assert (forall n tok e,
    Data.Env.makeGraphRequest env n tok = Js.Rejected e ->
    P (Data.caught e)) as Hcaught.
  { intros n tok e Hreq. unfold P, rejectedWith.
    destruct (caught_result e) as (Hitems & message & Herr & Hempty).
    split; [done|]. split; [by rewrite Herr|].
    rewrite Herr. intros [= ->]. exists e. split; [auto|].
    exists n, tok. by left. }
  assert (forall message, message <> "" -> P (Data.failure message)) as Hfail.
  { intros message Hne. unfold P. simpl. split; [done|]. split; [done|].
    by intros [= ->]. }
  assert (P Data.getMockSharedItems) as Hmock.
  { unfold P. simpl. split; [done|]. split; [auto | done]. }
  unfold Data.fetchSharedItems.
  destruct (Data.Env.isTokenValid env); simpl; [|by apply Hfail].
  destruct (Data.Env.getToken env) as [token|]; simpl; [|by apply Hfail].
  destruct (Js.truthy token); simpl; [|by apply Hfail].
  destruct (String.eqb token "mock-access-token-12345"); simpl; [done|].
  destruct (Data.Env.makeGraphRequest env 0 token) as [response|e] eqn:Hreq;
    simpl; [|by eapply Hcaught].
  destruct (N.eqb (Response.status response) 401); simpl;
    [|by eapply Hread].
  destruct (Data.Env.refreshToken env) as [newToken|]; simpl;
    [|by apply Hfail].
  destruct (Js.truthy newToken); simpl; [|by apply Hfail].
  destruct (Data.Env.makeGraphRequest env 1 newToken) as [response'|e']
    eqn:Hreq'; simpl; [by eapply Hread | by eapply Hcaught].
Qed.

(** X12. [fetchSharedItems] reports an error or items, never both: when
    [error] is not [null] the item list is empty. A result without error
    is the mock data or was read from the body of a response that was
    [ok] (an absent [value] gives the empty list). The error message is
    empty only when a request, or the reading of a body, was rejected with
    an [Error] whose message is empty. *)
Theorem fetchSharedItems_result env :
  let result := (Data.fetchSharedItems env).1 in
  (FetchResult.error result <> None -> FetchResult.items result = []) /\
  (FetchResult.error result = None ->
   result = Data.getMockSharedItems \/ readFrom env result) /\
  (FetchResult.error result = Some "" ->
   exists e, emptyMessage e /\ rejectedWith env e).
Proof. apply fetchSharedItems_cases. Qed.


(** X14. How a load takes the result of [fetchSharedItems]. An error with
    a non-empty message is stored in [error] and leaves the displayed
    people and images as they are. A result without error replaces the
    people by those of the fetched items. An error whose message is the
    empty string is not taken for an error: the load stores the (empty)
    item list of the result, so people and images become empty and [error]
    becomes [null]. Hence, when no request and no reading of a body is
    rejected with an empty message, a failed fetch never changes the
    displayed people and images. *)
Theorem load_after_fetchSharedItems (localeCompare : string -> string -> Z)
    (state : SelectionState.t) (request : nat) (clock : nat -> string) env :
  let result := (Data.fetchSharedItems env).1 in
  let state' :=
    run localeCompare state [FetchSettled request clock (Resolved result)] in
  (forall message,
     FetchResult.error result = Some message -> message <> "" ->
     SelectionState.displayImages state' = SelectionState.displayImages state /\
     SelectionState.availablePeople state'
       = SelectionState.availablePeople state /\
     SelectionState.error state' = Some message /\
     SelectionState.isLoading state' = false) /\
  (FetchResult.error result = Some "" ->
   SelectionState.displayImages state' = [] /\
   SelectionState.availablePeople state' = [] /\
   SelectionState.error state' = None /\
   SelectionState.isLoading state' = false) /\
  (FetchResult.error result = None ->
   SelectionState.availablePeople state'
     = ProcessResult.allPeople
         (Grouping.processGraphItems localeCompare clock
            (FetchResult.items result)) /\
   SelectionState.error state' = None /\
   SelectionState.isLoading state' = false) /\
  ((forall e, rejectedWith env e -> ~ emptyMessage e) ->
   FetchResult.error result <> None ->
   SelectionState.displayImages state' = SelectionState.displayImages state /\
   SelectionState.availablePeople state'
     = SelectionState.availablePeople state /\
   SelectionState.error state' = FetchResult.error result).
Proof.
  intros result state'.
  destruct (fetchSharedItems_cases env) as (Hitems & _ & Hempty).
  fold result in Hitems, Hempty.
  assert (forall message,
    FetchResult.error result = Some message -> message <> "" ->
    state' = selectionReducer state (SET_ERROR (Some message))) as Hfailed.
  { intros message Herr Hne. subst state'. unfold run. simpl.
    rewrite Herr. simpl. by apply truthy_true in Hne as ->. }
  split; [|split; [|split]].
  - intros message Herr Hne. by rewrite (Hfailed message Herr Hne).
  - intros Herr. subst state'.
    rewrite (fetch_settled_state localeCompare state request clock result)
      by by rewrite Herr.
    rewrite Hitems by by rewrite Herr.
    simpl. by destruct (SelectionState.selectedPerson state).
  - intros Herr. subst state'.
    by rewrite (fetch_settled_state localeCompare state request clock result)
      by by rewrite Herr.
  - intros Hnone Herr.
    destruct (FetchResult.error result) as [message|] eqn:Hmsg; [|done].
    destruct (String.eqb_spec message "") as [->|Hne].
    + destruct (Hempty eq_refl) as (e & He & Hrej). by destruct (Hnone e).
    + by rewrite (Hfailed message eq_refl Hne).
Qed.

End Fetch.

Section FetchSamples.

Import Selection Spec.

Lemma fetchSharedItems_result_witness :
  FetchResult.error (Data.fetchSharedItems Samples.offline).1
    = Some "Network connection problem - please check your internet connection"
  /\ FetchResult.items (Data.fetchSharedItems Samples.offline).1 = [].
Proof.
  split; [reflexivity|].
  by apply (fetchSharedItems_result Samples.offline).
Defined.


(** A failed fetch after the initial load: the network error keeps the
    three images, the error without message empties the gallery. *)
Lemma load_after_fetchSharedItems_witness :
  length
    (SelectionState.displayImages
       (run Samples.codeCompare Samples.loaded
          [FetchSettled 1 Samples.clock
             (Resolved (Data.fetchSharedItems Samples.offline).1)])) = 3 /\
  SelectionState.displayImages
    (run Samples.codeCompare Samples.loaded
       [FetchSettled 1 Samples.clock
          (Resolved (Data.fetchSharedItems Samples.silent).1)]) = [].
Proof.
  destruct (load_after_fetchSharedItems Samples.codeCompare Samples.loaded 1
              Samples.clock Samples.offline) as (Hkept & _).
  destruct (load_after_fetchSharedItems Samples.codeCompare Samples.loaded 1
              Samples.clock Samples.silent) as (_ & Hempty & _).
  split.
  - destruct (Hkept _ eq_refl) as [-> _]; [discriminate | reflexivity].
  - by destruct (Hempty eq_refl) as [-> _].
Defined.

End FetchSamples.

(** ** The order of the groupings *)

Section FirstSeen.

Import Grouping Spec.

Implicit Types (images seen : list SharedImage.t) (keys : list string).

Lemma groupOf_keys seen keys keys' :
  List.map (groupOf seen) keys = List.map (groupOf seen) keys' -> keys = keys'.
Proof.
  intros H. apply (f_equal (List.map fst)) in H.
  rewrite !List.map_map in H. simpl in H. by rewrite !List.map_id in H.
Qed.

(** One iteration of the grouping loop adds the key of the image, unless
    the map has it. *)
Lemma groupImage_addKey (localeCompare : string -> string -> Z)
    seen keys (image : SharedImage.t) :
  keysOf seen keys ->
  groupImage (List.map (groupOf seen) keys) image
  = Js.Normal
      (List.map (groupOf (seen ++ [image]))
         (addKey keys (Sharer.identifier (SharedImage.sharedBy image)))) /\
  keysOf (seen ++ [image])
    (addKey keys (Sharer.identifier (SharedImage.sharedBy image))).
Proof.
  intros Hkeys. pose proof Hkeys as [Hnd Hk].
  destruct (groupImage_step seen keys image Hkeys) as (keys' & Hstep & Hkeys').
  set (k := Sharer.identifier (SharedImage.sharedBy image)) in *.
  assert (keys' = addKey keys k) as <-; [|done].
  unfold addKey. case_bool_decide as Hin.
  - apply list_elem_of_In in Hin.
    assert (groupImage (List.map (groupOf seen) keys) image
            = Js.Normal (List.map (groupOf (seen ++ [image])) keys)) as Heq.
    { unfold groupImage, JsMap.has. fold k.
      rewrite (get_groupOf_in seen keys k Hin). simpl.
      rewrite (get_groupOf_in seen keys k Hin). simpl.
      f_equal. by apply set_groupOf_in. }
    rewrite Heq in Hstep. injection Hstep as Hstep.
    symmetry. by eapply groupOf_keys.
  - assert (~ In k keys) as Hn by (by rewrite <- list_elem_of_In).
    assert (groupImage (List.map (groupOf seen) keys) image
            = Js.Normal (List.map (groupOf (seen ++ [image])) (keys ++ [k])))
      as Heq.
    { unfold groupImage, JsMap.has. fold k.
      pose proof (get_groupOf_notin seen keys k Hn) as Hget.
      rewrite Hget. simpl.
      rewrite (set_groupOf_notin seen keys k [] Hn).
      rewrite (get_last _ k [] Hget). simpl.
      rewrite (set_last _ k [] [image] Hget).
      rewrite List.map_app. simpl. f_equal. f_equal.
      - symmetry. by apply map_groupOf_snoc_other.
      - pose proof (groupOf_snoc_same seen image) as Hsame. simpl in Hsame.
        fold k in Hsame. rewrite Hsame.
        by rewrite (filter_unseen seen keys k Hkeys Hn). }
    rewrite Heq in Hstep. injection Hstep as Hstep.
    symmetry. by eapply groupOf_keys.
Qed.

Lemma groupImages_addKey (localeCompare : string -> string -> Z)
    seen keys images :
  keysOf seen keys ->
  groupImages (List.map (groupOf seen) keys) images
  = Js.Normal
      (List.map (groupOf (seen ++ images))
         (fold_left addKey
            (List.map
               (fun img => Sharer.identifier (SharedImage.sharedBy img))
               images)
            keys)).
Proof.
  revert seen keys. induction images as [|image images IH]; intros seen keys Hk.
  - simpl. by rewrite app_nil_r.
  - destruct (groupImage_addKey localeCompare seen keys image Hk)
      as [Hstep Hk'].
    simpl. rewrite Hstep. simpl. rewrite (IH _ _ Hk').
    by rewrite <- app_assoc.
Qed.

Lemma keysOf_nil : keysOf [] [].
Proof.
  split; [constructor|]. intros k. simpl.
  split; [done | by intros (? & [] & _)].
Qed.

End FirstSeen.

Section Stable.

Import Grouping Spec.

Context {A : Type} (compareFn : A -> A -> Z) (same : A -> bool).

(** Elements of the class [same] are not after one another. *)
Hypothesis same_notAfter :
  forall x y, same x = true -> same y = true -> notAfter compareFn x y.

Lemma sort_insert_stable (x : A) (l : list A) :
  List.filter same (sort_insert compareFn x l) = List.filter same (x :: l).
Proof.
  induction l as [|y l IH]; simpl; [done|].
  destruct (Z.leb_spec (compareFn x y) 0) as [Hle|Hgt]; simpl; [done|].
  rewrite IH. simpl.
  destruct (same x) eqn:Hx, (same y) eqn:Hy; try done.
  pose proof (same_notAfter x y Hx Hy) as H. unfold notAfter in H. lia.
Qed.

Lemma sort_stable (l : list A) :
  List.filter same (sort compareFn l) = List.filter same l.
Proof.
  induction l as [|x l IH]; [done|].
  unfold sort in *. simpl. rewrite sort_insert_stable. simpl. by rewrite IH.
Qed.

End Stable.

Section Order.

Import Grouping Spec.

Variable localeCompare : string -> string -> Z.

(** X15. [groupBySharer] makes the groupings in the order in which their
    identifiers first occur in the input, and then sorts them by display
    name. When no name is after itself under the comparator, the sort
    leaves groupings with one display name in that order: among the
    groupings of the result that carry a given display name, identifiers
    are in first-occurrence order. So the result is determined by the
    input also where display names collide. *)
Theorem groupBySharer_order (images : list SharedImage.t) :
  (forall name, (localeCompare name name <= 0)%Z) ->
  exists made,
    groupBySharer localeCompare images
      = Js.Normal (sort (byDisplayName localeCompare) made) /\
    List.map identifierOf made = firstSeen images /\
    forall name,
      List.filter (hasName name) (sort (byDisplayName localeCompare) made)
      = List.filter (hasName name) made.
Proof.
  intros Hrefl.
  pose proof (groupImages_addKey localeCompare [] [] images keysOf_nil)
    as Hgroups.
  simpl in Hgroups. fold (firstSeen images) in Hgroups.
  destruct (groupImages_result images) as (keys & Hgroups' & Hkeys).
  unfold JsMap.empty in Hgroups'.
  rewrite Hgroups in Hgroups'. injection Hgroups' as Heq.
  apply groupOf_keys in Heq. subst keys.
  destruct (forEachGroup_result (List.map (groupOf images) (firstSeen images))
              [] (groupOf_nonempty images _ Hkeys)) as (made & Hmade & Hrel).
  exists made. split; [|split].
  - unfold groupBySharer, JsMap.empty.
    rewrite Hgroups. simpl. by rewrite Hmade.
  - rewrite (madeFrom_identifiers _ _ Hrel), List.map_map. simpl.
    apply List.map_id.
  - intros name. apply sort_stable.
    intros g h Hg%String.eqb_eq Hh%String.eqb_eq.
    unfold notAfter, byDisplayName.
    change (Person.displayName (PeopleGrouping.person g)) with (nameOf g).
    change (Person.displayName (PeopleGrouping.person h)) with (nameOf h).
    rewrite Hg, Hh. apply Hrefl.
Qed.

End Order.

Section OrderSample.

Import Grouping Spec.

Lemma codeCompare_refl (name : string) :
  (Samples.codeCompare name name <= 0)%Z.
Proof. by destruct (codeCompare_total name name). Qed.

Lemma groupBySharer_order_witness :
  exists groupings,
    groupBySharer Samples.codeCompare
      [Samples.sam2; Samples.sam3; Samples.sam1] = Js.Normal groupings /\
    List.map identifierOf groupings = ["s2"; "s1"; "s3"] /\
    firstSeen [Samples.sam2; Samples.sam3; Samples.sam1] = ["s2"; "s3"; "s1"].
Proof.
  destruct (groupBySharer_order Samples.codeCompare
              [Samples.sam2; Samples.sam3; Samples.sam1] codeCompare_refl)
    as (made & Hrun & _).
  exists (sort (byDisplayName Samples.codeCompare) made).
  split; [exact Hrun|]. split; [|reflexivity].
  assert (groupBySharer Samples.codeCompare
            [Samples.sam2; Samples.sam3; Samples.sam1]
          = Js.Normal
              [Samples.grouping "Sam" "s2" [Samples.sam2];
               Samples.grouping "Sam" "s1" [Samples.sam1];
               Samples.grouping "Sam (s1)" "s3" [Samples.sam3]]) as Hvalue
    by reflexivity.
  rewrite Hvalue in Hrun. injection Hrun as <-. reflexivity.
Defined.

End OrderSample.

(** ** Counting and showing names *)

Section NameCounts.

Import Grouping Spec.

Implicit Types (groupings : list PeopleGrouping.t) (g : PeopleGrouping.t).

Lemma nameCounts_from groupings (nameCount : gmap string nat) (name : string) :
  fold_left countName groupings nameCount !! name
  = if occurrences name groupings =? 0 then nameCount !! name
    else Some (default 0 (nameCount !! name) + occurrences name groupings).
Proof.
  revert nameCount.
  induction groupings as [|g groupings IH]; intros nameCount; [done|].
  simpl. rewrite IH, occurrences_cons. unfold countName.
  fold (nameOf g). rewrite lookup_insert.
  destruct (String.eqb_spec (nameOf g) name) as [->|Hne].
  - rewrite decide_True by done. simpl.
    destruct (Nat.eqb_spec (occurrences name groupings) 0) as [->|Hocc];
      f_equal; lia.
  - by rewrite decide_False.
Qed.

(** X16. The map that the first loop of [disambiguateDisplayNames] builds
    has, for each display name carried by some grouping of the list, the
    number of groupings that carry it, and no entry for any other name.
    A grouping is treated as a duplicate exactly when at least two
    groupings of the list carry its display name. *)
Theorem nameCounts_lookup groupings (name : string) :
  nameCounts groupings !! name
    = (if occurrences name groupings =? 0 then None
       else Some (occurrences name groupings)) /\
  (nameCounts groupings !! name = None <->
   forall g, In g groupings -> nameOf g <> name) /\
  (forall g, isDuplicate (nameCounts groupings) (PeopleGrouping.person g) = true
     <-> 2 <= occurrences (nameOf g) groupings).
Proof.
  assert (nameCounts groupings !! name
          = (if occurrences name groupings =? 0 then None
             else Some (occurrences name groupings))) as Hlookup.
  { unfold nameCounts. rewrite nameCounts_from, lookup_empty. simpl.
    by destruct (occurrences name groupings =? 0). }
  split; [exact Hlookup|]. split.
  - rewrite Hlookup.
    destruct (Nat.eqb_spec (occurrences name groupings) 0) as [Hz|Hnz].
    + split; [intros _|done]. intros g Hg Hname.
      pose proof (occurrences_In g groupings Hg) as H. rewrite Hname in H. lia.
    + split; [done|]. intros Hnone. by rewrite occurrences_zero in Hnz.
  - intros g. rewrite isDuplicate_occurrences. apply Nat.ltb_lt.
Qed.

Lemma nameCounts_lookup_witness :
  nameCounts Samples.sams !! "Sam" = Some 2 /\
  nameCounts Samples.sams !! "Sam (s1)" = Some 1 /\
  nameCounts Samples.sams !! "Kim" = None.
Proof.
  destruct (nameCounts_lookup Samples.sams "Sam") as (Hsam & _).
  destruct (nameCounts_lookup Samples.sams "Kim") as (_ & Hkim & _).
  split; [exact Hsam|]. split; [reflexivity|].
  apply Hkim. intros g [<-|[<-|[<-|[]]]]; discriminate.
Defined.

End NameCounts.

Section PlainPipeline.

Import Grouping Spec.

Variable localeCompare : string -> string -> Z.
Variable clock : nat -> string.

Implicit Types (items : list GraphDriveItem.t).

(** X17. When no sharer of an image item has a display name that contains
    [" ("], the people that [processGraphItems] returns have pairwise
    distinct display names: the people panel shows no two equal names. *)
Theorem pipeline_names_distinct items :
  (forall item u,
     In item items -> isImageItem item = true ->
     Models.sharedBy_user item = Some u ->
     includes (GraphUser.displayName u) " (" = false) ->
  NoDup
    (List.map Person.displayName
       (ProcessResult.allPeople
          (processGraphItems localeCompare clock items))).
Proof.
  intros Hplain.
  destruct (processGraphItems_result localeCompare clock items)
    as (mapped & made & -> & _ & Hfrom & Hnd & Hmade & _).
  simpl. rewrite List.map_map.
  change (List.map (fun g => Person.displayName (PeopleGrouping.person g)))
    with (List.map nameOf).
  pose proof (sort_perm (byDisplayName localeCompare) made) as Hsort.
  apply disambiguateDisplayNames_plain; [by rewrite Hsort|].
  intros g Hg. apply list_elem_of_In in Hg. rewrite Hsort in Hg.
  apply list_elem_of_In in Hg.
  destruct (Hmade g Hg) as (_ & Himgs & _ & first & rest & Hfirst & Hname).
  simpl in *. unfold plain, nameOf. rewrite Hname.
  assert (In first mapped) as Hin.
  { assert (In first (List.filter (sharedWith (identifierOf g)) mapped)) as H
      by (rewrite Hfirst; by left).
    by apply filter_In in H as [H _]. }
  rewrite Forall_forall in Hfrom.
  apply list_elem_of_In, Hfrom in Hin as (item & now & [Hitem His]%filter_In & Hmap).
  apply mapToSharedImage_Some in Hmap as (_ & f & u & _ & Hu & ->). simpl.
  by apply (Hplain item u).
Qed.

(** X18. Filtering the items to images before the pipeline changes
    nothing: [filterImagesByMime] is idempotent, it distributes over the
    concatenation of item lists, and [processGraphItems] returns the same
    result for a list and for its images. *)
Theorem pipeline_prefiltered items (items' : list GraphDriveItem.t) :
  filterImagesByMime (filterImagesByMime items) = filterImagesByMime items /\
  filterImagesByMime (items ++ items')
    = filterImagesByMime items ++ filterImagesByMime items' /\
  processGraphItems localeCompare clock (filterImagesByMime items)
    = processGraphItems localeCompare clock items.
Proof.
  assert (filterImagesByMime (filterImagesByMime items)
          = filterImagesByMime items) as Hidem.
  { unfold filterImagesByMime. rewrite filter_filter_andb.
    apply filter_ext. intros item. by destruct (isImageItem item). }
  split; [exact Hidem|]. split; [apply List.filter_app|].
  unfold processGraphItems. by rewrite Hidem.
Qed.

End PlainPipeline.

Section PlainPipelineSample.

Import Grouping Spec.

Lemma pipeline_names_distinct_witness :
  NoDup
    (List.map Person.displayName
       (ProcessResult.allPeople
          (processGraphItems Samples.codeCompare Samples.clock
             [Samples.rawItem "1" "a.jpg" "image/jpeg" "Sam" "s1" None;
              Samples.rawItem "2" "b.jpg" "image/jpeg" "Sam" "s2" None]))).
Proof.
  apply (pipeline_names_distinct Samples.codeCompare Samples.clock).
  intros item u [<-|[<-|[]]] _ [= <-]; reflexivity.
Defined.

Lemma pipeline_prefiltered_witness :
  processGraphItems Samples.codeCompare Samples.clock
    (filterImagesByMime [Samples.folder; Samples.beach; Samples.document])
  = processGraphItems Samples.codeCompare Samples.clock
      [Samples.folder; Samples.beach; Samples.document].
Proof.
  apply (pipeline_prefiltered Samples.codeCompare Samples.clock
           [Samples.folder; Samples.beach; Samples.document] []).
Defined.

End PlainPipelineSample.

(** ** The gallery and the people panel *)

Section Listed.

Import Selection Spec.

Variable localeCompare : string -> string -> Z.

Implicit Types (state : SelectionState.t) (events : list Event) (event : Event).

Lemma listed_step state event :
  listed state -> listed (dispatchAll state (react localeCompare event)).
Proof.
  unfold listed. intros Hl.
  destruct event as [| |person|request clock outcome]; simpl; try done.
  - destruct person; simpl; constructor.
  - destruct outcome as [result|message|]; simpl; [|exact Hl..].
    destruct (Js.truthy_opt (FetchResult.error result)); [exact Hl|].
    simpl. apply Forall_forall. intros img Himg%list_elem_of_In.
    assert (In img (flatten (ProcessResult.groupings
              (Grouping.processGraphItems localeCompare clock
                 (FetchResult.items result))))) as Hin.
    { destruct (SelectionState.selectedPerson state); [|done].
      by apply filter_In in Himg as [Himg _]. }
    apply in_concat in Hin as (imgs & (g & <- & Hg)%in_map_iff & Hin).
    destruct (processGraphItems_keyed localeCompare clock
                (FetchResult.items result)) as [[_ Hkey] Hpeople].
    exists (PeopleGrouping.person g). split.
    + rewrite Hpeople. by apply in_map.
    + symmetry. by apply Hkey.
Qed.

(** X19. In every state that the engine reaches from its initial state, each
    image of [displayImages] belongs to a person of [availablePeople]: the
    list has a person whose identifier is the image's
    [sharedBy.identifier]. *)
Theorem displayImages_listed events :
  listed (run localeCompare initialState events) /\
  forall state, listed state -> listed (run localeCompare state events).
Proof.
  assert (forall state, listed state ->
            listed (run localeCompare state events)) as Hrun.
  { induction events as [|event events IH] using rev_ind; [done|].
    intros state Hl. rewrite run_snoc. by apply listed_step, IH. }
  split; [|exact Hrun]. apply Hrun. constructor.
Qed.

End Listed.

Section ListedSample.

Import Selection Spec.

Lemma displayImages_listed_witness :
  listed Samples.loaded /\
  length (SelectionState.displayImages Samples.loaded) = 3.
Proof.
  split; [|reflexivity].
  exact (proj1 (displayImages_listed Samples.codeCompare
           [LoadDataCalled;
            FetchSettled 0 Samples.clock
              (Samples.fetched
                 [Samples.beach; Samples.party; Samples.hiking])])).
Defined.

End ListedSample.
